(** * Collaborative canvas: board store, sync channel and pointer interaction

    A shallow embedding of the state-handling code of the canvas
    application (types.ts, App.tsx and components/DraggableItem.tsx).

    - A TypeScript [number] is an IEEE 754 binary64 value: it is modelled by
      Rocq's primitive [float], so [+], [-], [<] and [Math.max] have the
      rounding, the signed zeros and the NaN of the running program.
    - An optional field ([width?: number]) is an [option]; [undefined] is
      [None].
    - JavaScript truthiness is written out: a number is falsy when it is
      [0], [-0] or [NaN]; a string is falsy when it is empty; [null] and
      [undefined] are falsy; an object is truthy.
    - The React state of [App] is one record, [AppState]; every handler is
      a function from the state in which it is called to the state after
      its updates have been applied. Handlers run one at a time, each in
      the state the one before it left: the component has re-rendered
      between two events, so a handler's closure and the [prev] of a
      functional update hold the same state.
    - Left out, having no part in the state: the [localStorage] writes
      (each in a [try] whose [catch] only logs), pointer capture,
      [preventDefault] and [stopPropagation], and the view. *)

From Stdlib Require Import Floats.
From Stdlib Require Import ZArith Ascii HexString.
From stdpp Require Import base option list strings.

Local Open Scope string_scope.
Local Open Scope list_scope.

(** ** JavaScript values *)

Module JS.

(** [!!n] for a number. *)
Definition truthy (n : float) : bool :=
  negb (PrimFloat.is_zero n || PrimFloat.is_nan n).

(** [!!n] for [n : number | undefined]. *)
Definition truthy_opt (n : option float) : bool :=
  match n with
  | Some f => truthy f
  | None => false
  end.

(** [!!s] for a string. *)
Definition truthy_str (s : string) : bool :=
  match s with
  | EmptyString => false
  | String _ _ => true
  end.

(** [!!s] for [s : string | null]. *)
Definition truthy_str_opt (s : option string) : bool :=
  match s with
  | Some s' => truthy_str s'
  | None => false
  end.

(** [a || b] where both sides are [number | undefined]. *)
Definition or (a b : option float) : option float :=
  if truthy_opt a then a else b.

(** [a || d] where [a : number | undefined] and [d : number]. *)
Definition or_num (a : option float) (d : float) : float :=
  match a with
  | Some f => if truthy f then f else d
  | None => d
  end.

(** [Math.max(a, b)]: NaN when either argument is NaN, and [+0] is
    larger than [-0]. *)
Definition Math_max (a b : float) : float :=
  if PrimFloat.is_nan a || PrimFloat.is_nan b then PrimFloat.nan
  else if PrimFloat.ltb a b then b
  else if PrimFloat.ltb b a then a
  else match PrimFloat.classify a with
       | NZero => b
       | _ => a
       end.

(** The outcome of an expression that may throw. *)
Inductive completion (A : Type) : Type :=
| Normal (a : A)
| Throw (e : string).
Global Arguments Normal {A} a.
Global Arguments Throw {A} e.

(** [try { body } catch (e) { handler(e) }]. *)
Definition try_catch {A} (body : completion A) (handler : string → completion A)
  : completion A :=
  match body with
  | Normal a => Normal a
  | Throw e => handler e
  end.

(** What [JSON.parse] can return. *)
#[warnings="-register-all"]
Inductive value : Type :=
| Null
| Bool (b : bool)
| Number (n : float)
| Str (s : string)
| Array (elems : list value)
| Object (fields : list (string * value)).

(** [l.findIndex(p)]: the first index whose element satisfies [p];
    [None] stands for the [-1] of JavaScript. *)
Definition findIndex {A} (P : A → Prop) `{∀ a, Decision (P a)} (l : list A)
  : option nat :=
  fst <$> list_find P l.

(** [l.find(p)]: the first element that satisfies [p], or [undefined]. *)
Definition find {A} (P : A → Prop) `{∀ a, Decision (P a)} (l : list A)
  : option A :=
  snd <$> list_find P l.

End JS.

(** ** types.ts *)

Inductive ItemType : Type := TEXT | IMAGE | STICKER | EMOJI.

Global Instance ItemType_eq_dec : EqDecision ItemType.
Proof. solve_decision. Defined.

Record CanvasItem : Type := mkItem {
  item_id : string;
  item_type : ItemType;
  item_content : string;
  item_x : float;
  item_y : float;
  item_width : option float;
  item_height : option float;
  item_rotation : float;
  item_author : string;
  item_color : option string;
  item_textColor : option string;
  item_createdAt : float
}.

Record User : Type := mkUser {
  user_id : string;
  user_name : string
}.

Inductive BackgroundSize : Type := cover | contain | auto.

Record Board : Type := mkBoard {
  board_id : string;
  board_topic : string;
  board_items : list CanvasItem;
  board_createdAt : float;
  board_host : string;
  board_backgroundImage : option string;
  board_backgroundSize : option BackgroundSize
}.

(** [{ ...item, x, y }] *)
Definition item_with_xy (item : CanvasItem) (x y : float) : CanvasItem :=
  {| item_id := item_id item; item_type := item_type item;
     item_content := item_content item;
     item_x := x; item_y := y;
     item_width := item_width item; item_height := item_height item;
     item_rotation := item_rotation item; item_author := item_author item;
     item_color := item_color item; item_textColor := item_textColor item;
     item_createdAt := item_createdAt item |}.

(** [{ ...item, width, height }] *)
Definition item_with_size (item : CanvasItem) (w h : option float) : CanvasItem :=
  {| item_id := item_id item; item_type := item_type item;
     item_content := item_content item;
     item_x := item_x item; item_y := item_y item;
     item_width := w; item_height := h;
     item_rotation := item_rotation item; item_author := item_author item;
     item_color := item_color item; item_textColor := item_textColor item;
     item_createdAt := item_createdAt item |}.

(** [{ ...board, items }] *)
Definition board_with_items (b : Board) (items : list CanvasItem) : Board :=
  {| board_id := board_id b; board_topic := board_topic b;
     board_items := items;
     board_createdAt := board_createdAt b; board_host := board_host b;
     board_backgroundImage := board_backgroundImage b;
     board_backgroundSize := board_backgroundSize b |}.

(** ** App.tsx: helpers *)

Section Storage.

(** [JSON.parse] is the platform's: it returns the parsed value or throws a
    [SyntaxError]. *)
Variable JSON_parse : string → JS.completion JS.value.

Definition safeJsonParse (str : option string) (fallback : JS.value)
  : JS.completion JS.value :=
  match str with
  | None => JS.Normal fallback
  | Some s =>
      if negb (JS.truthy_str s) then JS.Normal fallback
      else JS.try_catch (JSON_parse s) (λ _, JS.Normal fallback)
  end.

(** [loadBoards], applied to the result of
    [localStorage.getItem(STORAGE_KEY_BOARDS)]; the cast [as Board[]]
    checks nothing at run time. *)
Definition loadBoards (storedBoards : option string) : JS.completion JS.value :=
  safeJsonParse storedBoards (JS.Array []).

End Storage.

(** ** App.tsx: state *)

(** [{ x: e.clientX, y: e.clientY }] *)
Record Point : Type := mkPoint {
  clientX : float;
  clientY : float
}.

(** A message of the broadcast channel, [{ type, payload }]. *)
Record Message : Type := mkMessage {
  msg_type : string;
  msg_payload : Board
}.

Definition UPDATE_BOARD : string := "UPDATE_BOARD".

Record AppState : Type := mkState {
  user : option User;
  currentBoard : option Board;
  boards : list Board;
  draggedItemId : option string;
  resizingItemId : option string;
  interactionStart : Point;
  itemInitialState : option CanvasItem;
  (** [channelRef.current]: [None] when the channel could not be built,
      else the messages posted so far, oldest first. *)
  channelRef : option (list Message)
}.

Definition set_currentBoard (st : AppState) (b : option Board) : AppState :=
  {| user := user st; currentBoard := b; boards := boards st;
     draggedItemId := draggedItemId st; resizingItemId := resizingItemId st;
     interactionStart := interactionStart st;
     itemInitialState := itemInitialState st; channelRef := channelRef st |}.

Definition set_boards (st : AppState) (bs : list Board) : AppState :=
  {| user := user st; currentBoard := currentBoard st; boards := bs;
     draggedItemId := draggedItemId st; resizingItemId := resizingItemId st;
     interactionStart := interactionStart st;
     itemInitialState := itemInitialState st; channelRef := channelRef st |}.

Definition set_interaction (st : AppState) (dragged resizing : option string)
    (start : Point) (snapshot : option CanvasItem) : AppState :=
  {| user := user st; currentBoard := currentBoard st; boards := boards st;
     draggedItemId := dragged; resizingItemId := resizing;
     interactionStart := start;
     itemInitialState := snapshot; channelRef := channelRef st |}.

(** [channelRef.current?.postMessage(m)] *)
Definition postMessage (st : AppState) (m : Message) : AppState :=
  {| user := user st; currentBoard := currentBoard st; boards := boards st;
     draggedItemId := draggedItemId st; resizingItemId := resizingItemId st;
     interactionStart := interactionStart st;
     itemInitialState := itemInitialState st;
     channelRef := (λ log, log ++ [m]) <$> channelRef st |}.

(** ** App.tsx: persistence and sync *)

(** The updater that [saveAndBroadcastBoard] gives to [setBoards]. The write
    to [localStorage] sits in a [try] whose [catch] only logs; it has no
    part in the list that is returned. *)
Definition upsertBoard (updatedBoard : Board) (prev : list Board) : list Board :=
  match JS.findIndex (λ b, board_id b = board_id updatedBoard) prev with
  | Some idx => <[idx := updatedBoard]> prev
  | None => prev ++ [updatedBoard]
  end.

Definition saveAndBroadcastBoard (st : AppState) (updatedBoard : Board) : AppState :=
  let st1 := set_currentBoard st (Some updatedBoard) in
  let st2 := set_boards st1 (upsertBoard updatedBoard (boards st1)) in
  postMessage st2 {| msg_type := UPDATE_BOARD; msg_payload := updatedBoard |}.

(** The updater that [onmessage] gives to [setBoards]: the entry at the
    found index is overwritten, or the board is pushed. *)
Definition receiveBoard (updatedBoard : Board) (prev : list Board) : list Board :=
  match JS.findIndex (λ b, board_id b = board_id updatedBoard) prev with
  | Some idx => <[idx := updatedBoard]> prev
  | None => prev ++ [updatedBoard]
  end.

(** [channelRef.current.onmessage] *)
Definition onmessage (st : AppState) (data : Message) : AppState :=
  if decide (msg_type data = UPDATE_BOARD) then
    let updatedBoard := msg_payload data in
    let st1 := set_boards st (receiveBoard updatedBoard (boards st)) in
    set_currentBoard st1
      (match currentBoard st1 with
       | Some prev =>
           if decide (board_id prev = board_id updatedBoard)
           then Some updatedBoard else Some prev
       | None => None
       end)
  else st.

(** ** App.tsx: canvas logic *)

Inductive Direction : Type := front | back.

(** [index] is [items.findIndex(i => i.id === id)] and [item] the element
    that [items.splice(index, 1)] removes, which is the one found there. *)
Definition changeItemLayer (st : AppState) (id : string) (direction : Direction)
  : AppState :=
  match currentBoard st with
  | None => st
  | Some cb =>
      match list_find (λ i, item_id i = id) (board_items cb) with
      | None => st
      | Some (index, item) =>
          let spliced := delete index (board_items cb) in
          let items :=
            match direction with
            | front => spliced ++ [item]
            | back => item :: spliced
            end in
          saveAndBroadcastBoard st (board_with_items cb items)
      end
  end.

(** ** App.tsx: interaction handlers *)

Definition handlePointerDown (st : AppState) (e : Point) (id : string) : AppState :=
  match currentBoard st ≫= λ cb, JS.find (λ i, item_id i = id) (board_items cb) with
  | Some item => set_interaction st (Some id) (resizingItemId st) e (Some item)
  | None => st
  end.

Definition defaultWidth (t : ItemType) : float :=
  if decide (t = TEXT) then 250%float
  else if decide (t = EMOJI) then 100%float else 200%float.

Definition defaultHeight (t : ItemType) : option float :=
  if decide (t = IMAGE ∨ t = STICKER ∨ t = EMOJI)
  then (if decide (t = EMOJI) then Some 100%float else Some 200%float)
  else None.

Definition handleResizeStart (st : AppState) (e : Point) (id : string) : AppState :=
  match currentBoard st ≫= λ cb, JS.find (λ i, item_id i = id) (board_items cb) with
  | Some item =>
      set_interaction st (draggedItemId st) (Some id) e
        (Some (item_with_size item
                 (JS.or (item_width item) (Some (defaultWidth (item_type item))))
                 (JS.or (item_height item) (defaultHeight (item_type item)))))
  | None => st
  end.

(** The item the drag branch of [handlePointerMove] writes. *)
Definition dragged (initial : CanvasItem) (deltaX deltaY : float) (item : CanvasItem)
  : CanvasItem :=
  item_with_xy item (item_x initial + deltaX)%float (item_y initial + deltaY)%float.

(** The item the resize branch of [handlePointerMove] writes. *)
Definition resized (initial : CanvasItem) (deltaX deltaY : float) (item : CanvasItem)
  : CanvasItem :=
  item_with_size item
    (Some (JS.Math_max 50%float (JS.or_num (item_width initial) 0%float + deltaX)%float))
    (match item_height initial with
     | Some h =>
         if JS.truthy h then Some (JS.Math_max 50%float (h + deltaY)%float) else None
     | None => None
     end).

(** [prev => prev && { ...prev, items: prev.items.map(...) }], the updater
    both branches give to [setCurrentBoard]. *)
Definition mapItem (target : option string) (f : CanvasItem → CanvasItem)
    (prev : option Board) : option Board :=
  match prev with
  | None => None
  | Some b =>
      Some (board_with_items b
              ((λ item, if decide (Some (item_id item) = target) then f item else item)
                 <$> board_items b))
  end.

Definition handlePointerMove (st : AppState) (e : Point) : AppState :=
  match currentBoard st, itemInitialState st with
  | Some _, Some initial =>
      let deltaX := (clientX e - clientX (interactionStart st))%float in
      let deltaY := (clientY e - clientY (interactionStart st))%float in
      if JS.truthy_str_opt (draggedItemId st) then
        set_currentBoard st
          (mapItem (draggedItemId st) (dragged initial deltaX deltaY) (currentBoard st))
      else if JS.truthy_str_opt (resizingItemId st) then
        set_currentBoard st
          (mapItem (resizingItemId st) (resized initial deltaX deltaY) (currentBoard st))
      else st
  | _, _ => st
  end.

Definition handlePointerUp (st : AppState) : AppState :=
  if JS.truthy_str_opt (draggedItemId st) || JS.truthy_str_opt (resizingItemId st) then
    match currentBoard st with
    | Some cb =>
        let st1 := saveAndBroadcastBoard st cb in
        set_interaction st1 None None (interactionStart st1) None
    | None => st
    end
  else st.

(** ** components/DraggableItem.tsx *)

Module DraggableItem.

(** Permission check: the author or the board's host can edit. *)
Definition isAuthorized (currentUser : option User) (item : CanvasItem)
    (hostName : string) : bool :=
  match currentUser with
  | Some u =>
      bool_decide (user_name u = item_author item)
      || bool_decide (user_name u = hostName)
  | None => false
  end.

(** The component's own handlers; [onPointerDown] and [onResizeStart] are
    the props it was given. *)
Definition handlePointerDown (currentUser : option User) (item : CanvasItem)
    (hostName : string) (onPointerDown : Point → string → AppState)
    (st : AppState) (e : Point) : AppState :=
  if isAuthorized currentUser item hostName then onPointerDown e (item_id item) else st.

Definition handleResizePointerDown (currentUser : option User) (item : CanvasItem)
    (hostName : string) (onResizeStart : Point → string → AppState)
    (st : AppState) (e : Point) : AppState :=
  if isAuthorized currentUser item hostName then onResizeStart e (item_id item) else st.

End DraggableItem.

(** ** The board view *)

(** The pointer events of the board view. [App] renders one [DraggableItem]
    per element of [currentBoard.items], with [currentUser = user] and
    [hostName = currentBoard.host]; [k] is the position of the item the
    event falls on. *)
Inductive PointerEvent : Type :=
| DownOnItem (k : nat) (e : Point)
| DownOnHandle (k : nat) (e : Point)
| Move (e : Point)
| Up.

Definition rendered (st : AppState) (k : nat) : option (CanvasItem * string) :=
  cb ← currentBoard st; item ← board_items cb !! k; Some (item, board_host cb).

Definition dispatch (st : AppState) (ev : PointerEvent) : AppState :=
  match ev with
  | DownOnItem k e =>
      match rendered st k with
      | Some (item, hostName) =>
          DraggableItem.handlePointerDown (user st) item hostName
            (handlePointerDown st) st e
      | None => st
      end
  | DownOnHandle k e =>
      match rendered st k with
      | Some (item, hostName) =>
          DraggableItem.handleResizePointerDown (user st) item hostName
            (handleResizeStart st) st e
      | None => st
      end
  | Move e => handlePointerMove st e
  | Up => handlePointerUp st
  end.

Definition run (st : AppState) (evs : list PointerEvent) : AppState :=
  foldl dispatch st evs.

(** ** Vocabulary of the statements *)

(** The boards of [l] whose id is [i], in list order. *)
Definition entries (i : string) (l : list Board) : list Board :=
  filter (λ c, board_id c = i) l.


(** The snapshot [handleResizeStart] takes of [item]. *)
Definition resize_snapshot (item : CanvasItem) : CanvasItem :=
  item_with_size item
    (JS.or (item_width item) (Some (defaultWidth (item_type item))))
    (JS.or (item_height item) (defaultHeight (item_type item))).

(** What the pointer events of a user [u] keep true of the open board,
    [items0] being the items and [host] the host when the user starts from
    rest: position by position the id and the author are as in [items0],
    an item [u] may not edit is as in [items0], and an id held in an
    interaction slot is the id of an item [u] may edit. *)
Definition same_identity (u : option User) (host : string)
    (it0 it' : CanvasItem) : Prop :=
  item_id it' = item_id it0 ∧ item_author it' = item_author it0 ∧
  (DraggableItem.isAuthorized u it0 host = false → it' = it0).

Definition authorized_id (u : option User) (host : string)
    (items0 : list CanvasItem) (id : string) : Prop :=
  ∃ j it, items0 !! j = Some it ∧ item_id it = id ∧
          DraggableItem.isAuthorized u it host = true.

Definition gated (u : option User) (host : string) (items0 : list CanvasItem)
    (st : AppState) : Prop :=
  user st = u ∧
  (∃ cb', currentBoard st = Some cb' ∧ board_host cb' = host ∧
          length (board_items cb') = length items0 ∧
          ∀ j it0 it', items0 !! j = Some it0 → board_items cb' !! j = Some it' →
                       same_identity u host it0 it') ∧
  (∀ id, draggedItemId st = Some id → authorized_id u host items0 id) ∧
  (∀ id, resizingItemId st = Some id → authorized_id u host items0 id).

(** ** Sample data *)

Module Sample.

Definition ann : User := mkUser "u-ann" "Ann".
Definition eve : User := mkUser "u-eve" "Eve".

Definition note : CanvasItem :=
  mkItem "i-note" TEXT "hi" 120%float 80%float (Some 250%float) None
         0%float "Ann" None None 1%float.

Definition emoji : CanvasItem :=
  mkItem "i-emoji" EMOJI "*" 10%float 20%float None None
         0%float "Ann" None None 2%float.

Definition photo : CanvasItem :=
  mkItem "i-photo" IMAGE "data:image/jpeg;base64,AA" 300%float 40%float
         (Some 200%float) (Some 200%float) 0%float "Bob" None None 3%float.

Definition B1 : Board :=
  mkBoard "B1" "plans" [note; emoji; photo] 10%float "Hal" None None.

(** [B1] after an edit: same id, other content. *)
Definition B1_edited : Board :=
  mkBoard "B1" "plans" [photo; note] 10%float "Hal" None None.

(** An emoji whose stored width and height are both the number 0. *)
Definition flat : CanvasItem :=
  mkItem "i-flat" EMOJI "*" 10%float 20%float (Some 0%float) (Some 0%float)
         0%float "Ann" None None 4%float.

Definition B3 : Board :=
  mkBoard "B3" "flat" [flat] 30%float "Ann" None None.

Definition B2 : Board :=
  mkBoard "B2" "ideas" [] 20%float "Ann" None None.

Definition B2_edited : Board :=
  mkBoard "B2" "ideas" [emoji] 20%float "Ann" None None.

(** A stand-in for [JSON.parse] that knows four texts and rejects every
    other one, the empty text among them. *)
Definition literal_parse (s : string) : JS.completion JS.value :=
  if decide (s = "[]") then JS.Normal (JS.Array [])
  else if decide (s = "42") then JS.Normal (JS.Number 42%float)
  else if decide (s = "null") then JS.Normal JS.Null
  else if decide (s = "{}") then JS.Normal (JS.Object [])
  else JS.Throw "SyntaxError".

(** The board view of [b] opened by [u], no interaction in progress. *)
Definition idle (u : option User) (b : Board) : AppState :=
  mkState u (Some b) [b] None None (mkPoint 0%float 0%float) None (Some []).

(** Two items that share an id, the first by Bob and the second by Ann. *)
Definition twin_bob : CanvasItem :=
  mkItem "i-twin" IMAGE "data:image/jpeg;base64,BB" 0%float 0%float
         (Some 200%float) (Some 200%float) 0%float "Bob" None None 5%float.

Definition twin_ann : CanvasItem :=
  mkItem "i-twin" TEXT "mine" 500%float 500%float (Some 250%float) None
         0%float "Ann" None None 6%float.

Definition B4 : Board :=
  mkBoard "B4" "twins" [twin_bob; twin_ann] 40%float "Hal" None None.

(** [B1] with a drag of the note in progress. *)
Definition dragging_note : AppState :=
  handlePointerDown (idle (Some ann) B1) (mkPoint 1%float 1%float) "i-note".

End Sample.

(** ** App.tsx: item lifecycle *)

(** What [addItem] reads from the page and the platform: the size of the
    window, the three values [Math.random()] returns, in call order, the
    value of [generateId()] and of [Date.now()]. *)
Record AddEnv : Type := mkAddEnv {
  innerWidth : float;
  innerHeight : float;
  random_x : float;
  random_y : float;
  random_rotation : float;
  generated_id : string;
  date_now : float
}.

(** The item [addItem] builds. *)
Definition newItem (env : AddEnv) (author : string) (type : ItemType)
    (content : string) (color textColor : option string) : CanvasItem :=
  let viewportX := (innerWidth env / 2)%float in
  let viewportY := (innerHeight env / 2)%float in
  let randX := ((random_x env - 0.5) * 150)%float in
  let randY := ((random_y env - 0.5) * 150)%float in
  let '(width, height) :=
    if decide (type = TEXT) then (250%float, None)
    else if decide (type = EMOJI) then (100%float, Some 100%float)
    else (200%float, Some 200%float) in
  {| item_id := generated_id env;
     item_type := type;
     item_content := content;
     item_x := (viewportX + randX - 100)%float;
     item_y := (viewportY + randY - 100)%float;
     item_rotation := ((random_rotation env - 0.5) * 20)%float;
     item_author := author;
     item_createdAt := date_now env;
     item_color := color;
     item_textColor := textColor;
     item_width := Some width;
     item_height := height |}.

Definition addItem (st : AppState) (env : AddEnv) (type : ItemType)
    (content : string) (color textColor : option string) : AppState :=
  match currentBoard st, user st with
  | Some cb, Some usr =>
      saveAndBroadcastBoard st
        (board_with_items cb
           (board_items cb
              ++ [newItem env (user_name usr) type content color textColor]))
  | _, _ => st
  end.

Definition deleteItem (st : AppState) (id : string) : AppState :=
  match currentBoard st with
  | None => st
  | Some cb =>
      saveAndBroadcastBoard st
        (board_with_items cb (filter (λ i, item_id i ≠ id) (board_items cb)))
  end.

(** ** App.tsx: boards and the address *)

(** The rest of the state of [App] that the board handlers read or write,
    with the value [window.location.hash] reads. *)
Record Shell : Type := mkShell {
  app : AppState;
  location_hash : string;
  newBoardBg : option string;
  newBoardBgSize : BackgroundSize;
  isJoinMode : bool
}.

(** [s.replace('#', '')]: the first ['#'] of [s] is removed. *)
Fixpoint remove_first_hash (s : string) : string :=
  match s with
  | EmptyString => EmptyString
  | String c s' =>
      if decide (c = "#"%char) then s' else String c (remove_first_hash s')
  end.

(** [handleHashChange(allBoards)]. Both ways of cleaning the address, the
    [replaceState] and the assignment in its [catch], leave it without a
    fragment. *)
Definition handleHashChange (sh : Shell) (allBoards : list Board) : Shell :=
  let hash := remove_first_hash (location_hash sh) in
  if JS.truthy_str hash then
    match JS.find (λ b, board_id b = hash) allBoards with
    | Some sharedBoard =>
        {| app := set_currentBoard (app sh) (Some sharedBoard);
           location_hash := location_hash sh;
           newBoardBg := newBoardBg sh; newBoardBgSize := newBoardBgSize sh;
           isJoinMode := isJoinMode sh |}
    | None =>
        {| app := set_currentBoard (app sh) None;
           location_hash := "";
           newBoardBg := newBoardBg sh; newBoardBgSize := newBoardBgSize sh;
           isJoinMode := isJoinMode sh |}
    end
  else
    {| app := set_currentBoard (app sh) None;
       location_hash := location_hash sh;
       newBoardBg := newBoardBg sh; newBoardBgSize := newBoardBgSize sh;
       isJoinMode := isJoinMode sh |}.

(** The board [handleCreateBoard] builds; [id] is the value of
    [generateId()] and [now] of [Date.now()]. *)
Definition newBoard (id : string) (now : float) (topic host : string)
    (bg : option string) (bgSize : BackgroundSize) : Board :=
  {| board_id := id;
     board_topic := topic;
     board_items := [];
     board_createdAt := now;
     board_host := host;
     board_backgroundImage := if JS.truthy_str_opt bg then bg else None;
     board_backgroundSize := if JS.truthy_str_opt bg then Some bgSize else None |}.

(** [handleCreateBoard(topic)]. [assign_hash v] is what
    [window.location.hash] reads after [window.location.hash = v], which
    is the browser's to decide. *)
Definition handleCreateBoard (assign_hash : string → string) (sh : Shell)
    (id : string) (now : float) (topic : string) : Shell :=
  match user (app sh) with
  | None => sh
  | Some usr =>
      let b := newBoard id now topic (user_name usr)
                 (newBoardBg sh) (newBoardBgSize sh) in
      {| app := saveAndBroadcastBoard (app sh) b;
         location_hash := assign_hash id;
         newBoardBg := None; newBoardBgSize := cover;
         isJoinMode := false |}
  end.

(** ** App.tsx: generateId *)

(** [n.toString(16)] for an integer [n]. *)
Definition toString16 (n : Z) : string :=
  match n with
  | Z0 => "0"
  | Zpos p => HexString.Raw.of_pos p ""
  | Zneg p => String "-" (HexString.Raw.of_pos p "")
  end.

(** [template.replace(/[xy]/g, callback)]: the callback runs once per
    match, from left to right, and [rand16 k] is the value of
    [Math.random() * 16 | 0] in its call number [k]. *)
Fixpoint replace_xy (rand16 : nat → Z) (k : nat) (template : string) : string :=
  match template with
  | EmptyString => EmptyString
  | String c rest =>
      if decide (c = "x"%char ∨ c = "y"%char) then
        let r := rand16 k in
        let v := if decide (c = "x"%char) then r else Z.lor (Z.land r 3) 8 in
        toString16 v +:+ replace_xy rand16 (S k) rest
      else String c (replace_xy rand16 k rest)
  end.

Definition UUID_TEMPLATE : string := "xxxxxxxx-xxxx-4xxx-yxxx-xxxxxxxxxxxx".

(** [generateId()]; [randomUUID] is the value of [crypto.randomUUID()]
    where the platform has it. *)
Definition generateId (randomUUID : option string) (rand16 : nat → Z) : string :=
  match randomUUID with
  | Some uuid => uuid
  | None => replace_xy rand16 0 UUID_TEMPLATE
  end.

(** ** Rendering *)

(** A handler made by [useCallback] reads the state variables of the
    render it was made in, and what it sets takes effect at the next
    render: a value given to a setter replaces the state, a function given
    to a setter is applied to the state as the updates queued before it
    left it. [closure] is the state of the last render, which the handlers
    in use hold; [latest] is the state with every update queued so far
    applied, which the next render shows. The channel is a ref, not state:
    it is read and written in [latest]. *)
Module View.

Record t : Type := mk {
  closure : AppState;
  latest : AppState
}.

(** The component renders: the handlers are made again, over the state
    as it is now. *)
Definition render (v : t) : t :=
  {| closure := latest v; latest := latest v |}.

Definition queue (v : t) (update : AppState → AppState) : t :=
  {| closure := closure v; latest := update (latest v) |}.

(** [handlePointerDown]: the item is looked up in the closure's board, and
    the three setters are given values. *)
Definition handlePointerDown (v : t) (e : Point) (id : string) : t :=
  match currentBoard (closure v)
          ≫= λ cb, JS.find (λ i, item_id i = id) (board_items cb) with
  | Some item =>
      queue v (λ st, set_interaction st (Some id) (resizingItemId st) e (Some item))
  | None => v
  end.

Definition handleResizeStart (v : t) (e : Point) (id : string) : t :=
  match currentBoard (closure v)
          ≫= λ cb, JS.find (λ i, item_id i = id) (board_items cb) with
  | Some item =>
      queue v (λ st,
        set_interaction st (draggedItemId st) (Some id) e
          (Some (item_with_size item
                   (JS.or (item_width item) (Some (defaultWidth (item_type item))))
                   (JS.or (item_height item) (defaultHeight (item_type item))))))
  | None => v
  end.

(** [handlePointerMove]: the guards, the ids, the start pointer and the
    snapshot are the closure's; [setCurrentBoard] is given a function of
    [prev]. *)
Definition handlePointerMove (v : t) (e : Point) : t :=
  match currentBoard (closure v), itemInitialState (closure v) with
  | Some _, Some initial =>
      let deltaX := (clientX e - clientX (interactionStart (closure v)))%float in
      let deltaY := (clientY e - clientY (interactionStart (closure v)))%float in
      if JS.truthy_str_opt (draggedItemId (closure v)) then
        queue v (λ st,
          set_currentBoard st
            (mapItem (draggedItemId (closure v)) (dragged initial deltaX deltaY)
               (currentBoard st)))
      else if JS.truthy_str_opt (resizingItemId (closure v)) then
        queue v (λ st,
          set_currentBoard st
            (mapItem (resizingItemId (closure v)) (resized initial deltaX deltaY)
               (currentBoard st)))
      else v
  | _, _ => v
  end.

(** [handlePointerUp]: [saveAndBroadcastBoard] is called with the closure's
    [currentBoard]; it gives that board to [setCurrentBoard] as a value and
    a function of [prev] to [setBoards]. *)
Definition handlePointerUp (v : t) : t :=
  if JS.truthy_str_opt (draggedItemId (closure v))
     || JS.truthy_str_opt (resizingItemId (closure v)) then
    match currentBoard (closure v) with
    | Some cb =>
        queue v (λ st,
          let st1 := saveAndBroadcastBoard st cb in
          set_interaction st1 None None (interactionStart st1) None)
    | None => v
    end
  else v.

(** A pointer event on the view as rendered: the items, the user and the
    host the [DraggableItem]s were given are the closure's. *)
Definition dispatch (v : t) (ev : PointerEvent) : t :=
  match ev with
  | DownOnItem k e =>
      match rendered (closure v) k with
      | Some (item, hostName) =>
          if DraggableItem.isAuthorized (user (closure v)) item hostName
          then handlePointerDown v e (item_id item) else v
      | None => v
      end
  | DownOnHandle k e =>
      match rendered (closure v) k with
      | Some (item, hostName) =>
          if DraggableItem.isAuthorized (user (closure v)) item hostName
          then handleResizeStart v e (item_id item) else v
      | None => v
      end
  | Move e => handlePointerMove v e
  | Up => handlePointerUp v
  end.

(** What happens to a view: a pointer event, or a render. *)
Inductive Event : Type :=
| Pointer (ev : PointerEvent)
| Render.

Definition step (v : t) (ev : Event) : t :=
  match ev with
  | Pointer p => dispatch v p
  | Render => render v
  end.

Definition run (v : t) (evs : list Event) : t := foldl step v evs.

(** A view that has rendered the state [st] and has nothing queued. *)
Definition fresh (st : AppState) : t := {| closure := st; latest := st |}.

(** Move events and renders only. *)
Definition is_move_or_render (ev : Event) : Prop :=
  match ev with
  | Pointer (Move _) | Render => True
  | Pointer _ => False
  end.

End View.

(** ** Vocabulary of the further statements *)

(** [r] is the larger of 50 and [v], and NaN when [v] is: what
    [Math.max(50, v)] is to return. *)
Definition is_max_50 (v r : float) : Prop :=
  (PrimFloat.is_nan v = true → r = PrimFloat.nan) ∧
  (PrimFloat.is_nan v = false → PrimFloat.ltb 50%float v = true → r = v) ∧
  (PrimFloat.is_nan v = false → PrimFloat.ltb 50%float v = false → r = 50%float).

(** Two states with the same interaction, and a board open in both or in
    neither. *)
Definition same_interaction (a b : AppState) : Prop :=
  draggedItemId a = draggedItemId b ∧
  resizingItemId a = resizingItemId b ∧
  interactionStart a = interactionStart b ∧
  itemInitialState a = itemInitialState b ∧
  (is_Some (currentBoard a) ↔ is_Some (currentBoard b)).

(** [st] is [s], or [s] after a move event. *)
Definition moved_from (s st : AppState) : Prop :=
  st = s ∨ ∃ p, st = handlePointerMove s p.

(** The id of the interaction a move event acts on. *)
Definition moving_id (st : AppState) : option string :=
  if JS.truthy_str_opt (draggedItemId st) then draggedItemId st
  else if JS.truthy_str_opt (resizingItemId st) then resizingItemId st
  else None.

(** With no interaction in progress, the open board is the board the list
    holds under its id. *)
Definition settled (st : AppState) : Prop :=
  moving_id st = None →
  ∀ cb, currentBoard st = Some cb →
        JS.find (λ b, board_id b = board_id cb) (boards st) = Some cb.


(** An item without its geometry: what drag and resize never touch. *)
Definition ungeometry (it : CanvasItem) : CanvasItem :=
  item_with_size (item_with_xy it 0%float 0%float) None None.

Definition ungeometry_board (b : Board) : Board :=
  board_with_items b (ungeometry <$> board_items b).

(** A lowercase hexadecimal digit. *)
Definition is_hex_digit (c : ascii) : Prop :=
  c ∈ ["0"; "1"; "2"; "3"; "4"; "5"; "6"; "7"; "8"; "9";
       "a"; "b"; "c"; "d"; "e"; "f"]%char.

(** ** Further sample data *)

Module Scene.

Definition env : AddEnv :=
  mkAddEnv 1280%float 720%float 0.25%float 0.75%float 0.5%float
           "i-new" 99%float.

(** Ann on [B1], with nothing stored beside it. *)
Definition ann_on_B1 : AppState := Sample.idle (Some Sample.ann) Sample.B1.

Definition shell (hash : string) : Shell :=
  mkShell (Sample.idle (Some Sample.ann) Sample.B2) hash None cover false.


(** The same for a resize of the note from (0,0). *)
Definition resize_release_before_render : list View.Event :=
  [View.Pointer (DownOnHandle 0 (mkPoint 0%float 0%float)); View.Render;
   View.Pointer (Move (mkPoint 10%float 10%float)); View.Render;
   View.Pointer (Move (mkPoint 25%float (-400)%float));
   View.Pointer Up; View.Render].

(** A source of nibbles: 0, 1, ..., 15, 0, 1, ... *)
Definition counting (k : nat) : Z := Z.of_nat k mod 16.

End Scene.
(** * Properties *)

(** ** The board store *)

Section BoardStore.

Implicit Types (b c : Board) (l prev : list Board) (i : string).

Lemma findIndex_cons {A} (P : A → Prop) `{∀ a, Decision (P a)} (a : A) (l : list A) :
  JS.findIndex P (a :: l) =
  if decide (P a) then Some 0 else S <$> JS.findIndex P l.
Proof.
  unfold JS.findIndex. cbn. destruct (decide (P a)); [done|].
  by destruct (list_find P l) as [[? ?]|].
Qed.

Lemma upsertBoard_cons b c l :
  upsertBoard b (c :: l) =
  if decide (board_id c = board_id b) then b :: l else c :: upsertBoard b l.
Proof.
  unfold upsertBoard. rewrite findIndex_cons.
  destruct (decide (board_id c = board_id b)); [done|].
  by destruct (JS.findIndex _ l).
Qed.

Lemma receiveBoard_upsertBoard b l : receiveBoard b l = upsertBoard b l.
Proof. done. Qed.

Lemma findIndex_None_ids b l :
  JS.findIndex (λ c, board_id c = board_id b) l = None ↔
  board_id b ∉ board_id <$> l.
Proof.
  induction l as [|c l IH]; [split; [intros _; apply not_elem_of_nil|done]|].
  rewrite findIndex_cons, fmap_cons, not_elem_of_cons.
  destruct (decide (board_id c = board_id b)) as [e|n].
  - split; [done|]. intros [? _]. congruence.
  - destruct (JS.findIndex _ l); cbn in *.
    + split; [done|]. intros [_ Hb]. by apply IH in Hb.
    + split; [|done]. intros _. split; [congruence|]. by apply IH.
Qed.

Lemma findIndex_Some_lookup b l idx :
  JS.findIndex (λ c, board_id c = board_id b) l = Some idx →
  (∃ c, l !! idx = Some c ∧ board_id c = board_id b) ∧
  (∀ j c, l !! j = Some c → j < idx → board_id c ≠ board_id b).
Proof.
  unfold JS.findIndex. destruct (list_find _ l) as [[k c]|] eqn:E; [|done].
  cbn. intros [= ->]. apply list_find_Some in E as (? & ? & ?). eauto.
Qed.

Lemma upsertBoard_ids b l i :
  i ∈ board_id <$> upsertBoard b l ↔ i ∈ board_id <$> l ∨ i = board_id b.
Proof.
  induction l as [|c l IH].
  - cbn. rewrite list_elem_of_singleton, elem_of_nil. tauto.
  - rewrite upsertBoard_cons.
    destruct (decide (board_id c = board_id b)) as [e|n];
      rewrite !fmap_cons, !elem_of_cons; [rewrite e; tauto|].
    rewrite IH. tauto.
Qed.

Lemma upsertBoard_NoDup b l :
  NoDup (board_id <$> l) → NoDup (board_id <$> upsertBoard b l).
Proof.
  induction l as [|c l IH]; intros Hnd.
  - cbn. apply NoDup_singleton.
  - rewrite upsertBoard_cons. rewrite fmap_cons in Hnd.
    apply NoDup_cons in Hnd as [Hc Hl].
    destruct (decide (board_id c = board_id b)) as [e|n]; rewrite fmap_cons.
    + apply NoDup_cons. by rewrite <- e.
    + apply NoDup_cons. split; [|by apply IH].
      rewrite upsertBoard_ids. intros [?|?]; [done|congruence].
Qed.

Lemma entries_absent i l : i ∉ board_id <$> l → entries i l = [].
Proof.
  unfold entries. induction l as [|c l IH]; [done|].
  rewrite fmap_cons, not_elem_of_cons. intros [? ?].
  rewrite filter_cons_False by congruence. auto.
Qed.

(** The entry for the upserted id, when ids are unique, is the new board
    alone. *)
Lemma upsertBoard_entries_eq b l :
  NoDup (board_id <$> l) → entries (board_id b) (upsertBoard b l) = [b].
Proof.
  unfold entries. induction l as [|c l IH]; intros Hnd.
  - cbn. by rewrite decide_True.
  - rewrite upsertBoard_cons. rewrite fmap_cons in Hnd.
    apply NoDup_cons in Hnd as [Hc Hl].
    destruct (decide (board_id c = board_id b)) as [e|n].
    + rewrite filter_cons_True by done. f_equal.
      apply entries_absent. by rewrite <- e.
    + rewrite filter_cons_False by done. auto.
Qed.

(** The entries of every other id are untouched. *)
Lemma upsertBoard_entries_ne b l i :
  i ≠ board_id b → entries i (upsertBoard b l) = entries i l.
Proof.
  unfold entries. intros Hne. induction l as [|c l IH].
  - cbn. by rewrite decide_False.
  - rewrite upsertBoard_cons.
    destruct (decide (board_id c = board_id b)) as [e|n].
    + rewrite !filter_cons_False by congruence. done.
    + rewrite !filter_cons. by rewrite IH.
Qed.

(** The first board with a given id after an upsert, whatever the list
    held before. *)
Lemma find_upsertBoard_eq b l :
  JS.find (λ c, board_id c = board_id b) (upsertBoard b l) = Some b.
Proof.
  unfold JS.find. induction l as [|c l IH].
  - cbn. by rewrite decide_True.
  - rewrite upsertBoard_cons.
    destruct (decide (board_id c = board_id b)) as [e|n]; cbn.
    + by rewrite decide_True.
    + rewrite decide_False by done.
      destruct (list_find _ (upsertBoard b l)) as [[? ?]|]; cbn in *; congruence.
Qed.

Lemma find_upsertBoard_ne b l i :
  i ≠ board_id b →
  JS.find (λ c, board_id c = i) (upsertBoard b l) = JS.find (λ c, board_id c = i) l.
Proof.
  unfold JS.find. intros Hne. induction l as [|c l IH].
  - cbn. by rewrite decide_False.
  - rewrite upsertBoard_cons.
    destruct (decide (board_id c = board_id b)) as [e|n]; cbn.
    + rewrite !decide_False by congruence. done.
    + destruct (decide (board_id c = i)); [done|].
      destruct (list_find _ (upsertBoard b l)) as [[? ?]|];
        destruct (list_find _ l) as [[? ?]|]; cbn in *; congruence.
Qed.

End BoardStore.

Section BoardStoreSequences.

Implicit Types (b c : Board) (l prev : list Board) (i : string).

Lemma upsertBoard_unseen b l :
  board_id b ∉ board_id <$> l → upsertBoard b l = l ++ [b].
Proof.
  intros Hb. apply findIndex_None_ids in Hb. unfold upsertBoard. by rewrite Hb.
Qed.

Lemma upsertBoard_known b l :
  board_id b ∈ board_id <$> l →
  ∃ idx c, l !! idx = Some c ∧ board_id c = board_id b ∧
           (∀ j c', l !! j = Some c' → j < idx → board_id c' ≠ board_id b) ∧
           upsertBoard b l = <[idx := b]> l.
Proof.
  intros Hb. unfold upsertBoard.
  destruct (JS.findIndex _ l) as [idx|] eqn:E.
  - destruct (findIndex_Some_lookup _ _ _ E) as [(c & Hc & Hid) Hleast].
    exists idx, c. eauto.
  - apply findIndex_None_ids in E. done.
Qed.

Lemma entries_snoc i l b :
  entries i (l ++ [b]) = entries i l ++ (if decide (board_id b = i) then [b] else []).
Proof. unfold entries. by rewrite filter_app. Qed.

Lemma foldl_upsertBoard_NoDup prev upserted :
  NoDup (board_id <$> prev) →
  NoDup (board_id <$> foldl (λ l b, upsertBoard b l) prev upserted).
Proof.
  induction upserted as [|u us IH] using rev_ind; [done|].
  intros Hnd. rewrite foldl_snoc. by apply upsertBoard_NoDup, IH.
Qed.

Lemma foldl_upsertBoard_last prev upserted i b :
  NoDup (board_id <$> prev) →
  last (entries i upserted) = Some b →
  entries i (foldl (λ l b, upsertBoard b l) prev upserted) = [b].
Proof.
  intros Hnd. induction upserted as [|u us IH] using rev_ind; [done|].
  rewrite foldl_snoc, entries_snoc.
  destruct (decide (board_id u = i)) as [<-|Hne].
  - rewrite last_snoc. intros [= <-].
    by apply upsertBoard_entries_eq, foldl_upsertBoard_NoDup.
  - rewrite app_nil_r. intros Hlast.
    rewrite upsertBoard_entries_ne by done. auto.
Qed.

Lemma foldl_upsertBoard_find prev upserted i b :
  last (entries i upserted) = Some b →
  JS.find (λ c, board_id c = i) (foldl (λ l b, upsertBoard b l) prev upserted)
  = Some b.
Proof.
  induction upserted as [|u us IH] using rev_ind; [done|].
  rewrite foldl_snoc, entries_snoc.
  destruct (decide (board_id u = i)) as [<-|Hne].
  - rewrite last_snoc. intros [= <-]. apply find_upsertBoard_eq.
  - rewrite app_nil_r. intros Hlast.
    rewrite find_upsertBoard_ne by done. auto.
Qed.

End BoardStoreSequences.

Section SaveAndBroadcast.

Implicit Types (st : AppState) (b : Board).

Lemma boards_saveAndBroadcastBoard st b :
  boards (saveAndBroadcastBoard st b) = upsertBoard b (boards st).
Proof. done. Qed.

Lemma boards_foldl_saveAndBroadcastBoard st (upserted : list Board) :
  boards (foldl saveAndBroadcastBoard st upserted)
  = foldl (λ l b, upsertBoard b l) (boards st) upserted.
Proof.
  induction upserted as [|u us IH] using rev_ind; [done|].
  by rewrite !foldl_snoc, boards_saveAndBroadcastBoard, IH.
Qed.

End SaveAndBroadcast.

(** C1. Starting from a board list without duplicate ids, every sequence of
    [saveAndBroadcastBoard] calls keeps one entry per id in the list, and
    the entry of an upserted id is the board upserted last for it. A
    single upsert of an unseen id appends the board; a single upsert of a
    known id overwrites the first entry that has the id, at its index, so
    the length and every other position are as before. *)
Theorem upsertBoard_one_entry_per_id (st : AppState) (upserted : list Board) :
  NoDup (board_id <$> boards st) →
  let store := boards (foldl saveAndBroadcastBoard st upserted) in
  NoDup (board_id <$> store) ∧
  (∀ i b, last (entries i upserted) = Some b → entries i store = [b]) ∧
  (∀ b, board_id b ∉ board_id <$> boards st →
     boards (saveAndBroadcastBoard st b) = boards st ++ [b]) ∧
  (∀ b, board_id b ∈ board_id <$> boards st →
     ∃ idx c, boards st !! idx = Some c ∧ board_id c = board_id b ∧
              (∀ j c', boards st !! j = Some c' → j < idx →
                       board_id c' ≠ board_id b) ∧
              boards (saveAndBroadcastBoard st b) !! idx = Some b ∧
              length (boards (saveAndBroadcastBoard st b)) = length (boards st) ∧
              ∀ j, j ≠ idx →
                   boards (saveAndBroadcastBoard st b) !! j = boards st !! j).
Proof.
  intros Hnd store. subst store. rewrite boards_foldl_saveAndBroadcastBoard.
  split_and!.
  - by apply foldl_upsertBoard_NoDup.
  - intros i b. by apply foldl_upsertBoard_last.
  - intros b. rewrite boards_saveAndBroadcastBoard. apply upsertBoard_unseen.
  - intros b Hb. rewrite boards_saveAndBroadcastBoard.
    destruct (upsertBoard_known b (boards st) Hb)
      as (idx & c & Hc & Hid & Hleast & ->).
    exists idx, c. split_and!; [done..| | |].
    + apply list_lookup_insert_eq. by eapply lookup_lt_Some.
    + apply length_insert.
    + intros j Hj. by apply list_lookup_insert_ne.
Qed.

Lemma upsertBoard_one_entry_per_id_witness :
  NoDup (board_id <$> boards (Sample.idle (Some Sample.ann) Sample.B2)) ∧
  entries "B1"
    (boards (foldl saveAndBroadcastBoard (Sample.idle (Some Sample.ann) Sample.B2)
               [Sample.B1; Sample.B2_edited; Sample.B1_edited]))
  = [Sample.B1_edited].
Proof.
  assert (Hnd : NoDup (board_id <$> boards (Sample.idle (Some Sample.ann) Sample.B2)))
    by apply NoDup_singleton.
  split; [exact Hnd|].
  exact (proj1 (proj2 (upsertBoard_one_entry_per_id
                         (Sample.idle (Some Sample.ann) Sample.B2)
                         [Sample.B1; Sample.B2_edited; Sample.B1_edited] Hnd))
           "B1" Sample.B1_edited eq_refl).
Defined.

(** ** The sync channel *)

Section SyncChannel.

Implicit Types (st : AppState) (b c : Board).

Lemma boards_onmessage st b :
  boards (onmessage st (mkMessage UPDATE_BOARD b)) = upsertBoard b (boards st).
Proof.
  rewrite <- receiveBoard_upsertBoard. unfold onmessage.
  by rewrite decide_True.
Qed.

Lemma onmessage_other_type st (data : Message) :
  msg_type data ≠ UPDATE_BOARD → onmessage st data = st.
Proof. intros Hne. unfold onmessage. by rewrite decide_False. Qed.

Lemma boards_foldl_onmessage st (received : list Board) :
  boards (foldl onmessage st (mkMessage UPDATE_BOARD <$> received))
  = foldl (λ l b, upsertBoard b l) (boards st) received.
Proof.
  induction received as [|u us IH] using rev_ind; [done|].
  rewrite fmap_app.
  change (mkMessage UPDATE_BOARD <$> [u]) with [mkMessage UPDATE_BOARD u].
  by rewrite !foldl_snoc, boards_onmessage, IH.
Qed.

End SyncChannel.

(** C4. A received [UPDATE_BOARD] snapshot overwrites the first entry of the
    receiver's list that has its id, whole, and is pushed at the end when no
    entry has it; nothing of either board but the id is looked at. After
    any sequence of received snapshots the board found under an id is the
    last snapshot received for that id. The open board follows when it has
    the id, and a message of another type changes nothing. *)
Theorem onmessage_last_received_wins (st : AppState) (received : list Board) :
  (∀ i b, last (entries i received) = Some b →
     JS.find (λ c, board_id c = i)
       (boards (foldl onmessage st (mkMessage UPDATE_BOARD <$> received)))
     = Some b) ∧
  (∀ b, board_id b ∉ board_id <$> boards st →
     boards (onmessage st (mkMessage UPDATE_BOARD b)) = boards st ++ [b]) ∧
  (∀ b, board_id b ∈ board_id <$> boards st →
     ∃ idx c, boards st !! idx = Some c ∧ board_id c = board_id b ∧
       (∀ j c', boards st !! j = Some c' → j < idx → board_id c' ≠ board_id b) ∧
       boards (onmessage st (mkMessage UPDATE_BOARD b)) = <[idx := b]> (boards st)) ∧
  (∀ b cb, currentBoard st = Some cb → board_id cb = board_id b →
     currentBoard (onmessage st (mkMessage UPDATE_BOARD b)) = Some b) ∧
  (∀ data, msg_type data ≠ UPDATE_BOARD → onmessage st data = st).
Proof.
  split_and!; [| | | |apply onmessage_other_type].
  - intros i b Hlast. rewrite boards_foldl_onmessage.
    by apply foldl_upsertBoard_find.
  - intros b Hb. rewrite boards_onmessage. by apply upsertBoard_unseen.
  - intros b Hb. rewrite boards_onmessage. by apply upsertBoard_known.
  - intros b cb Hcb Hid. unfold onmessage.
    rewrite decide_True by done. cbn. rewrite Hcb.
    by rewrite decide_True.
Qed.

Lemma onmessage_last_received_wins_witness :
  JS.find (λ c, board_id c = "B1")
    (boards (foldl onmessage (Sample.idle (Some Sample.ann) Sample.B1)
               (mkMessage UPDATE_BOARD <$>
                  [Sample.B2; Sample.B1_edited; Sample.B2_edited])))
  = Some Sample.B1_edited.
Proof.
  exact (proj1 (onmessage_last_received_wins
                  (Sample.idle (Some Sample.ann) Sample.B1)
                  [Sample.B2; Sample.B1_edited; Sample.B2_edited])
           "B1" Sample.B1_edited eq_refl).
Defined.

(** ** Loading the boards *)

Section Loading.

Variable JSON_parse : string → JS.completion JS.value.

Lemma safeJsonParse_missing fallback :
  safeJsonParse JSON_parse None fallback = JS.Normal fallback.
Proof. done. Qed.

Lemma safeJsonParse_empty fallback :
  safeJsonParse JSON_parse (Some "") fallback = JS.Normal fallback.
Proof. done. Qed.

Lemma safeJsonParse_throw s e fallback :
  JSON_parse s = JS.Throw e →
  safeJsonParse JSON_parse (Some s) fallback = JS.Normal fallback.
Proof.
  intros Hs. unfold safeJsonParse.
  destruct (negb (JS.truthy_str s)); [done|]. by rewrite Hs.
Qed.

Lemma safeJsonParse_parsed s v fallback :
  s ≠ "" → JSON_parse s = JS.Normal v →
  safeJsonParse JSON_parse (Some s) fallback = JS.Normal v.
Proof.
  intros Hne Hs. unfold safeJsonParse.
  destruct s as [|a s]; [done|]. cbn. by rewrite Hs.
Qed.

Lemma safeJsonParse_total str fallback :
  ∃ v, safeJsonParse JSON_parse str fallback = JS.Normal v.
Proof.
  destruct str as [s|]; [|by eexists].
  unfold safeJsonParse. destruct (negb (JS.truthy_str s)); [by eexists|].
  destruct (JSON_parse s); by eexists.
Qed.

End Loading.

(** C8. [loadBoards] never throws: whatever [JSON.parse] does, the result is
    a value. A missing stored value, and every stored string that
    [JSON.parse] rejects, give the empty list. *)
Theorem loadBoards_never_throws (JSON_parse : string → JS.completion JS.value) :
  (∀ storedBoards, ∃ v, loadBoards JSON_parse storedBoards = JS.Normal v) ∧
  loadBoards JSON_parse None = JS.Normal (JS.Array []) ∧
  (∀ s e, JSON_parse s = JS.Throw e →
     loadBoards JSON_parse (Some s) = JS.Normal (JS.Array [])).
Proof.
  split_and!.
  - intros stored. apply safeJsonParse_total.
  - apply safeJsonParse_missing.
  - intros s e. apply safeJsonParse_throw.
Qed.

Lemma loadBoards_never_throws_witness :
  loadBoards Sample.literal_parse (Some "{oops") = JS.Normal (JS.Array []).
Proof.
  exact (proj2 (proj2 (loadBoards_never_throws Sample.literal_parse))
           "{oops" "SyntaxError" eq_refl).
Defined.

(** C10. [JSON.parse] rejects the empty text. Then every stored string
    that parses is returned as parsed, whatever its shape, and the
    empty-list fallback is returned only for a missing value or a string
    that does not parse. *)
Theorem loadBoards_no_shape_validation
    (JSON_parse : string → JS.completion JS.value) :
  (∃ e, JSON_parse "" = JS.Throw e) →
  (∀ s v, JSON_parse s = JS.Normal v →
     loadBoards JSON_parse (Some s) = JS.Normal v) ∧
  (∀ storedBoards,
     match storedBoards with
     | None => loadBoards JSON_parse storedBoards = JS.Normal (JS.Array [])
     | Some s =>
         match JSON_parse s with
         | JS.Normal v => loadBoards JSON_parse storedBoards = JS.Normal v
         | JS.Throw _ => loadBoards JSON_parse storedBoards = JS.Normal (JS.Array [])
         end
     end).
Proof.
  intros [e0 Hempty].
  assert (Hparsed : ∀ s v, JSON_parse s = JS.Normal v →
            loadBoards JSON_parse (Some s) = JS.Normal v).
  { intros s v Hs. apply safeJsonParse_parsed; [|done].
    intros ->. congruence. }
  split; [done|].
  intros [s|]; [|done].
  destruct (JSON_parse s) as [v|e] eqn:Hs; [by apply Hparsed|].
  by eapply safeJsonParse_throw.
Qed.

Lemma loadBoards_no_shape_validation_witness :
  (∃ e, Sample.literal_parse "" = JS.Throw e) ∧
  loadBoards Sample.literal_parse (Some "42") = JS.Normal (JS.Number 42%float) ∧
  loadBoards Sample.literal_parse (Some "{}") = JS.Normal (JS.Object []).
Proof.
  assert (Hempty : ∃ e, Sample.literal_parse "" = JS.Throw e)
    by (exists "SyntaxError"; reflexivity).
  split; [exact Hempty|]. split.
  - exact (proj1 (loadBoards_no_shape_validation Sample.literal_parse Hempty)
             "42" (JS.Number 42%float) eq_refl).
  - exact (proj1 (loadBoards_no_shape_validation Sample.literal_parse Hempty)
             "{}" (JS.Object []) eq_refl).
Defined.

(** ** Layers *)

Section Layers.

Implicit Types (st : AppState) (cb : Board) (items : list CanvasItem) (id : string).

Lemma list_find_id_present items id :
  id ∈ item_id <$> items →
  ∃ index item, list_find (λ i, item_id i = id) items = Some (index, item).
Proof.
  intros (item & -> & Hin)%list_elem_of_fmap.
  destruct (list_find_elem_of (λ i, item_id i = item_id item) items item)
    as [[index found] Hfound]; eauto.
Qed.

Lemma list_find_id_absent items id :
  id ∉ item_id <$> items → list_find (λ i, item_id i = id) items = None.
Proof.
  intros Hid. apply list_find_None, Forall_forall. intros item Hin <-.
  apply Hid, list_elem_of_fmap. eauto.
Qed.

Lemma changeItemLayer_found st cb id index item direction :
  currentBoard st = Some cb →
  list_find (λ i, item_id i = id) (board_items cb) = Some (index, item) →
  currentBoard (changeItemLayer st id direction)
  = Some (board_with_items cb
            match direction with
            | front => delete index (board_items cb) ++ [item]
            | back => item :: delete index (board_items cb)
            end).
Proof.
  intros Hcb Hfind. unfold changeItemLayer. rewrite Hcb, Hfind.
  by destruct direction.
Qed.

Lemma changeItemLayer_not_found st cb id direction :
  currentBoard st = Some cb →
  list_find (λ i, item_id i = id) (board_items cb) = None →
  changeItemLayer st id direction = st.
Proof. intros Hcb Hfind. unfold changeItemLayer. by rewrite Hcb, Hfind. Qed.

End Layers.

(** C6. On the open board, [changeItemLayer id front] takes the first item
    that has the id out of the sequence and puts it last, and
    [changeItemLayer id back] puts it first; the other items keep their
    order, and the new sequence is a permutation of the old one of the
    same length. For an id that no item has, the state is left as it
    was. *)
Theorem changeItemLayer_moves (st : AppState) (cb : Board) (id : string) :
  currentBoard st = Some cb →
  (id ∈ item_id <$> board_items cb →
   ∃ index item others,
     board_items cb !! index = Some item ∧ item_id item = id ∧
     (∀ j it, board_items cb !! j = Some it → j < index → item_id it ≠ id) ∧
     others = delete index (board_items cb) ∧
     (board_items <$> currentBoard (changeItemLayer st id front)
      = Some (others ++ [item])) ∧
     (board_items <$> currentBoard (changeItemLayer st id back)
      = Some (item :: others)) ∧
     last (others ++ [item]) = Some item ∧
     head (item :: others) = Some item ∧
     length (others ++ [item]) = length (board_items cb) ∧
     length (item :: others) = length (board_items cb) ∧
     others ++ [item] ≡ₚ board_items cb ∧
     item :: others ≡ₚ board_items cb) ∧
  (id ∉ item_id <$> board_items cb →
   ∀ direction, changeItemLayer st id direction = st).
Proof.
  intros Hcb. split.
  - intros Hid.
    destruct (list_find_id_present _ _ Hid) as (index & item & Hfind).
    pose proof Hfind as (Hlook & Hitem & Hfirst)%list_find_Some.
    exists index, item, (delete index (board_items cb)).
    pose proof (delete_Permutation _ _ _ Hlook) as Hperm.
    pose proof (length_delete _ _ (mk_is_Some _ _ Hlook)) as Hlen.
    pose proof (lookup_lt_Some _ _ _ Hlook) as Hlt.
    split_and!; try done.
    + by rewrite (changeItemLayer_found st cb id index item front).
    + by rewrite (changeItemLayer_found st cb id index item back).
    + apply last_snoc.
    + rewrite length_app. cbn. lia.
    + cbn. lia.
    + by rewrite <- Permutation_cons_append.
  - intros Hid direction.
    by apply (changeItemLayer_not_found st cb), list_find_id_absent.
Qed.

Lemma changeItemLayer_moves_witness :
  currentBoard (Sample.idle (Some Sample.ann) Sample.B1) = Some Sample.B1 ∧
  changeItemLayer (Sample.idle (Some Sample.ann) Sample.B1) "i-none" front
  = Sample.idle (Some Sample.ann) Sample.B1.
Proof.
  split; [reflexivity|].
  refine (proj2 (changeItemLayer_moves
                   (Sample.idle (Some Sample.ann) Sample.B1) Sample.B1 "i-none"
                   eq_refl) _ front).
  vm_compute. intros H. repeat (apply elem_of_cons in H as [H|H]; [discriminate H|]).
  by apply elem_of_nil in H.
Defined.

(** ** Numbers *)

Section Numbers.

Lemma SFcompare_Lt_Gt (a b : spec_float) :
  SFcompare a b = Some Lt → SFcompare b a = Some Gt.
Proof.
  destruct a as [sa|sa| |sa ma ea], b as [sb|sb| |sb mb eb];
    repeat match goal with s : bool |- _ => destruct s end;
    cbn; try congruence.
  all: rewrite (Z.compare_antisym ea eb).
  all: destruct (ea ?= eb)%Z; cbn; try congruence.
  all: change (Pos.compare_cont Eq mb ma) with (mb ?= ma)%positive.
  all: change (Pos.compare_cont Eq ma mb) with (ma ?= mb)%positive.
  all: rewrite (Pos.compare_antisym ma mb).
  all: destruct (ma ?= mb)%positive; cbn; congruence.
Qed.

Lemma ltb_asym (x y : float) :
  PrimFloat.ltb x y = true → PrimFloat.ltb y x = false.
Proof.
  rewrite !ltb_spec. unfold SFltb.
  destruct (SFcompare (Prim2SF x) (Prim2SF y)) as [[]|] eqn:E; try done.
  intros _. by rewrite (SFcompare_Lt_Gt _ _ E).
Qed.

(** [Math.max(50, v)] is never below 50; it is NaN when [v] is. *)
Lemma Math_max_50_lower (v : float) :
  PrimFloat.ltb (JS.Math_max 50%float v) 50%float = false.
Proof.
  unfold JS.Math_max.
  change (PrimFloat.is_nan 50%float) with false. cbn [orb].
  destruct (PrimFloat.is_nan v); [done|].
  destruct (PrimFloat.ltb 50%float v) eqn:E1; [by apply ltb_asym|].
  destruct (PrimFloat.ltb v 50%float) eqn:E2; done.
Qed.

(** [Math.max(50, v)] is NaN for a NaN, [v] when [v] is above 50, and 50
    otherwise. *)
Lemma Math_max_50_is_max (v : float) : is_max_50 v (JS.Math_max 50%float v).
Proof.
  unfold is_max_50, JS.Math_max.
  change (PrimFloat.is_nan 50%float) with false. cbn [orb].
  split_and!.
  - by intros ->.
  - by intros -> ->.
  - intros -> ->. by destruct (PrimFloat.ltb v 50%float).
Qed.

Lemma float_neq (a b : float) :
  PrimFloat.eqb a a = true → PrimFloat.eqb a b = false → a ≠ b.
Proof. intros Ha Hab <-. congruence. Qed.

Lemma or_num_truthy (w d : float) : JS.truthy w = true → JS.or_num (Some w) d = w.
Proof. intros Hw. cbn. by rewrite Hw. Qed.

Lemma truthy_str_nonempty (s : string) : s ≠ "" → JS.truthy_str s = true.
Proof. by destruct s. Qed.

End Numbers.

(** ** Pointer interaction *)

Section Interaction.

Implicit Types (st : AppState) (cb : Board) (item initial : CanvasItem)
  (e p q start : Point) (id : string).

Lemma mapItem_absorb target (f g : CanvasItem → CanvasItem) (prev : option Board) :
  (∀ item, item_id (g item) = item_id item) →
  (∀ item, f (g item) = f item) →
  mapItem target f (mapItem target g prev) = mapItem target f prev.
Proof.
  intros Hid Hfg. destruct prev as [b|]; [|done]. cbn.
  unfold board_with_items. cbn. do 2 f_equal.
  rewrite <- list_fmap_compose. apply list_fmap_ext. intros _ item _. cbn.
  destruct (decide (Some (item_id item) = target)) as [Heq|Hne].
  - by rewrite Hid, decide_True.
  - by rewrite decide_False.
Qed.

(** A later move event overrides an earlier one. *)
Lemma handlePointerMove_absorb st p q :
  handlePointerMove (handlePointerMove st p) q = handlePointerMove st q.
Proof.
  unfold handlePointerMove.
  destruct (currentBoard st) as [cb|] eqn:Hcb;
    [|by rewrite Hcb].
  destruct (itemInitialState st) as [initial|] eqn:Hinit;
    [|by rewrite Hcb, Hinit].
  destruct (JS.truthy_str_opt (draggedItemId st)) eqn:Hd;
    [|destruct (JS.truthy_str_opt (resizingItemId st)) eqn:Hr].
  - cbn. rewrite Hinit, Hd. unfold set_currentBoard. cbn. f_equal.
    by apply (mapItem_absorb (draggedItemId st)
                (dragged initial _ _) (dragged initial _ _) (Some cb)).
  - cbn. rewrite Hinit, Hd, Hr. unfold set_currentBoard. cbn. f_equal.
    by apply (mapItem_absorb (resizingItemId st)
                (resized initial _ _) (resized initial _ _) (Some cb)).
  - by rewrite Hcb, Hinit, Hd, Hr.
Qed.

Lemma foldl_handlePointerMove_last st (moves : list Point) (final : Point) :
  foldl handlePointerMove st (moves ++ [final]) = handlePointerMove st final.
Proof.
  induction moves as [|m ms IH] using rev_ind; [done|].
  rewrite !foldl_snoc, handlePointerMove_absorb, <- foldl_snoc. exact IH.
Qed.

End Interaction.

Section Dragging.

Implicit Types (st : AppState) (cb : Board) (item initial : CanvasItem)
  (e p q start : Point) (id : string).

Lemma handlePointerDown_found st cb id item start :
  currentBoard st = Some cb →
  JS.find (λ i, item_id i = id) (board_items cb) = Some item →
  handlePointerDown st start id
  = set_interaction st (Some id) (resizingItemId st) start (Some item).
Proof. intros Hcb Hfind. unfold handlePointerDown. rewrite Hcb. cbn. by rewrite Hfind. Qed.

Lemma handlePointerDown_not_found st start id :
  (currentBoard st ≫= λ cb, JS.find (λ i, item_id i = id) (board_items cb)) = None →
  handlePointerDown st start id = st.
Proof. intros Hfind. unfold handlePointerDown. by rewrite Hfind. Qed.

Lemma handleResizeStart_found st cb id item start :
  currentBoard st = Some cb →
  JS.find (λ i, item_id i = id) (board_items cb) = Some item →
  handleResizeStart st start id
  = set_interaction st (draggedItemId st) (Some id) start
      (Some (item_with_size item
               (JS.or (item_width item) (Some (defaultWidth (item_type item))))
               (JS.or (item_height item) (defaultHeight (item_type item))))).
Proof. intros Hcb Hfind. unfold handleResizeStart. rewrite Hcb. cbn. by rewrite Hfind. Qed.

Lemma handleResizeStart_not_found st start id :
  (currentBoard st ≫= λ cb, JS.find (λ i, item_id i = id) (board_items cb)) = None →
  handleResizeStart st start id = st.
Proof. intros Hfind. unfold handleResizeStart. by rewrite Hfind. Qed.

Lemma find_lookup {A} (P : A → Prop) `{∀ a, Decision (P a)} (l : list A) (a : A) :
  JS.find P l = Some a →
  ∃ k, l !! k = Some a ∧ P a ∧ ∀ j b, l !! j = Some b → j < k → ¬ P b.
Proof.
  unfold JS.find. destruct (list_find P l) as [[k b]|] eqn:E; [|done].
  cbn. intros [= ->]. apply list_find_Some in E. eauto.
Qed.

(** The items after a move of the drag of [id]. *)
Lemma mapItem_by_id id (f : CanvasItem → CanvasItem) cb :
  mapItem (Some id) f (Some cb)
  = Some (board_with_items cb
            ((λ it, if decide (item_id it = id) then f it else it) <$> board_items cb)).
Proof.
  cbn. do 2 f_equal. apply list_fmap_ext. intros _ it _.
  destruct (decide (item_id it = id)) as [->|Hne].
  - by rewrite decide_True.
  - rewrite decide_False; [done|]. congruence.
Qed.

End Dragging.


(** ** Renders *)

Section Renders.

Implicit Types (s st : AppState) (v : View.t) (p q : Point).

Lemma view_dispatch_fresh st (ev : PointerEvent) :
  View.dispatch (View.fresh st) ev
  = {| View.closure := st; View.latest := dispatch st ev |}.
Proof.
  destruct ev as [k e|k e|e|]; cbn [View.dispatch dispatch View.fresh View.closure].
  - destruct (rendered st k) as [[it hostName]|]; [|done].
    unfold DraggableItem.handlePointerDown.
    destruct (DraggableItem.isAuthorized _ _ _); [|done].
    unfold View.handlePointerDown, handlePointerDown. cbn.
    by destruct (_ ≫= _).
  - destruct (rendered st k) as [[it hostName]|]; [|done].
    unfold DraggableItem.handleResizePointerDown.
    destruct (DraggableItem.isAuthorized _ _ _); [|done].
    unfold View.handleResizeStart, handleResizeStart. cbn.
    by destruct (_ ≫= _).
  - unfold View.handlePointerMove, handlePointerMove. cbn.
    destruct (currentBoard st) as [b|] eqn:Hb; [|done].
    destruct (itemInitialState st); [|done].
    destruct (JS.truthy_str_opt (draggedItemId st));
      [unfold View.queue; cbn; by rewrite Hb|].
    destruct (JS.truthy_str_opt (resizingItemId st)); [|done].
    unfold View.queue; cbn; by rewrite Hb.
  - unfold View.handlePointerUp, handlePointerUp. cbn.
    destruct (_ || _); [|done]. by destruct (currentBoard st).
Qed.


Lemma view_handleResizeStart_fresh st e id :
  View.render (View.handleResizeStart (View.fresh st) e id)
  = View.fresh (handleResizeStart st e id).
Proof.
  unfold View.handleResizeStart, handleResizeStart. cbn.
  by destruct (_ ≫= _).
Qed.

Lemma view_handlePointerUp_fresh st :
  View.latest (View.handlePointerUp (View.fresh st)) = handlePointerUp st.
Proof.
  unfold View.handlePointerUp, handlePointerUp. cbn.
  destruct (_ || _); [|done]. by destruct (currentBoard st).
Qed.

Lemma same_interaction_refl s : same_interaction s s.
Proof. by split_and!. Qed.

Lemma same_interaction_sym a b : same_interaction a b → same_interaction b a.
Proof. intros (? & ? & ? & ? & ?). by split_and!. Qed.

Lemma same_interaction_trans a b c :
  same_interaction a b → same_interaction b c → same_interaction a c.
Proof.
  intros (? & ? & ? & ? & Hab) (? & ? & ? & ? & Hbc).
  split_and!; [congruence..|]. by rewrite Hab.
Qed.

Lemma same_interaction_handlePointerMove s p :
  same_interaction s (handlePointerMove s p).
Proof.
  unfold handlePointerMove.
  destruct (currentBoard s) as [cb|] eqn:Hcb; [|apply same_interaction_refl].
  destruct (itemInitialState s); [|apply same_interaction_refl].
  destruct (JS.truthy_str_opt (draggedItemId s));
    [|destruct (JS.truthy_str_opt (resizingItemId s));
      [|apply same_interaction_refl]];
    (split_and!; [done..|]; rewrite Hcb; cbn; split; intros _; by eexists).
Qed.

Lemma same_interaction_moved_from s st : moved_from s st → same_interaction s st.
Proof.
  intros [->|[p ->]];
    [apply same_interaction_refl|apply same_interaction_handlePointerMove].
Qed.

(** With the interaction of the closure the one of the latest state, a
    move event does to the latest state what [handlePointerMove] does
    when called in it. *)
Lemma view_handlePointerMove_same v q :
  same_interaction (View.closure v) (View.latest v) →
  View.handlePointerMove v q
  = {| View.closure := View.closure v;
       View.latest := handlePointerMove (View.latest v) q |}.
Proof.
  destruct v as [R P]. cbn [View.closure View.latest].
  intros (Hd & Hr & Hs & Hi & Hb).
  unfold View.handlePointerMove, handlePointerMove. cbn [View.closure View.latest].
  rewrite Hd, Hr, Hs, Hi.
  destruct (currentBoard R) as [cbR|], (currentBoard P) as [cbP|] eqn:HP.
  - destruct (itemInitialState P); [|done].
    destruct (JS.truthy_str_opt (draggedItemId P));
      [unfold View.queue; cbn; by rewrite HP|].
    destruct (JS.truthy_str_opt (resizingItemId P)); [|done].
    unfold View.queue; cbn; by rewrite HP.
  - destruct (proj1 Hb) as [? ?]; [by eexists|done].
  - destruct (proj2 Hb) as [? ?]; [by eexists|done].
  - done.
Qed.

Lemma moved_from_handlePointerMove s st q :
  moved_from s st → handlePointerMove st q = handlePointerMove s q.
Proof. intros [->|[p ->]]; [done|apply handlePointerMove_absorb]. Qed.

Lemma view_run_moves s (steps : list View.Event) :
  Forall View.is_move_or_render steps →
  moved_from s (View.closure (View.run (View.fresh s) steps)) ∧
  moved_from s (View.latest (View.run (View.fresh s) steps)).
Proof.
  unfold View.run. induction steps as [|ev evs IH] using rev_ind.
  - intros _. split; by left.
  - rewrite Forall_app, Forall_singleton. intros [Hevs Hev].
    destruct (IH Hevs) as [Hc Hl]. rewrite foldl_snoc.
    destruct ev as [[k e|k e|e|]|]; [done|done| |done|];
      cbn [View.step View.dispatch].
    + rewrite view_handlePointerMove_same.
      * cbn. split; [done|]. right. exists e.
        by apply moved_from_handlePointerMove.
      * eapply same_interaction_trans;
          [apply same_interaction_sym|]; by apply same_interaction_moved_from.
    + by split.
Qed.

(** After any moves and renders, a last move, a render and the release
    leave what the three handlers leave when run one after the other on
    the state the moves started from. *)
Lemma view_release_after_render s (steps : list View.Event) (final : Point) :
  Forall View.is_move_or_render steps →
  View.latest
    (View.handlePointerUp
       (View.render
          (View.handlePointerMove (View.run (View.fresh s) steps) final)))
  = handlePointerUp (handlePointerMove s final).
Proof.
  intros Hsteps. destruct (view_run_moves s steps Hsteps) as [Hc Hl].
  rewrite view_handlePointerMove_same.
  - cbn [View.render View.latest].
    rewrite (moved_from_handlePointerMove s _ final Hl).
    apply (view_handlePointerUp_fresh (handlePointerMove s final)).
  - eapply same_interaction_trans;
      [apply same_interaction_sym|]; by apply same_interaction_moved_from.
Qed.

End Renders.




(** ** Resizing *)

Section Resizing.

Implicit Types (st : AppState) (cb : Board) (item initial : CanvasItem)
  (e p q start : Point) (id : string).

Lemma defaultWidth_truthy t : JS.truthy (defaultWidth t) = true.
Proof. by destruct t. Qed.

Lemma defaultHeight_truthy t h : defaultHeight t = Some h → JS.truthy h = true.
Proof. destruct t; cbn; intros [= <-]; done. Qed.

Lemma resize_snapshot_width item :
  ∃ width0, item_width (resize_snapshot item) = Some width0 ∧
            JS.truthy width0 = true.
Proof.
  cbn. unfold JS.or.
  destruct (item_width item) as [w|]; cbn.
  - destruct (JS.truthy w) eqn:Hw; eauto using defaultWidth_truthy.
  - eauto using defaultWidth_truthy.
Qed.

Lemma resize_snapshot_height item height0 :
  item_height (resize_snapshot item) = Some height0 → JS.truthy height0 = true.
Proof.
  cbn. unfold JS.or.
  destruct (item_height item) as [h|]; cbn.
  - destruct (JS.truthy h) eqn:Hh.
    + by intros [= <-].
    + apply defaultHeight_truthy.
  - apply defaultHeight_truthy.
Qed.

Lemma resized_width initial deltaX deltaY item width0 :
  item_width initial = Some width0 → JS.truthy width0 = true →
  item_width (resized initial deltaX deltaY item)
  = Some (JS.Math_max 50%float (width0 + deltaX)%float).
Proof. intros Hw Ht. cbn. rewrite Hw. by rewrite or_num_truthy. Qed.

Lemma resized_height initial deltaX deltaY item :
  (∀ h, item_height initial = Some h → JS.truthy h = true) →
  item_height (resized initial deltaX deltaY item)
  = match item_height initial with
    | Some height0 => Some (JS.Math_max 50%float (height0 + deltaY)%float)
    | None => None
    end.
Proof.
  intros Ht. cbn. destruct (item_height initial) as [h|]; [|done].
  by rewrite Ht.
Qed.

(** Whatever the snapshot, a size the resize branch writes is not below
    50. *)
Lemma resized_lower initial deltaX deltaY item :
  (∀ w, item_width (resized initial deltaX deltaY item) = Some w →
        PrimFloat.ltb w 50%float = false) ∧
  (∀ h, item_height (resized initial deltaX deltaY item) = Some h →
        PrimFloat.ltb h 50%float = false).
Proof.
  split; cbn.
  - intros w [= <-]. apply Math_max_50_lower.
  - intros h. destruct (item_height initial) as [h0|]; [|done].
    destruct (JS.truthy h0); [|done]. intros [= <-]. apply Math_max_50_lower.
Qed.

Lemma handlePointerMove_resizing st cb initial id p :
  currentBoard st = Some cb →
  itemInitialState st = Some initial →
  JS.truthy_str_opt (draggedItemId st) = false →
  resizingItemId st = Some id → id ≠ "" →
  handlePointerMove st p
  = set_currentBoard st
      (Some (board_with_items cb
               ((λ it, if decide (item_id it = id)
                       then resized initial
                              (clientX p - clientX (interactionStart st))%float
                              (clientY p - clientY (interactionStart st))%float it
                       else it) <$> board_items cb))).
Proof.
  intros Hcb Hinit Hd Hr Hid. unfold handlePointerMove.
  rewrite Hcb, Hinit, Hd, Hr. cbn [JS.truthy_str_opt].
  rewrite truthy_str_nonempty by done. by rewrite mapItem_by_id.
Qed.

End Resizing.

(** C3. In a resize of the item found under [id], begun at [start] with
    no drag in progress, [handleResizeStart] holds a snapshot with a width
    [width0]. A move event at [p] then gives every item with that id the
    width [Math.max(50, width0 + deltaX)], and the height
    [Math.max(50, height0 + deltaY)] when the snapshot has a height
    [height0], no height when it has none, whatever move events came
    before. The value written is the sum when the sum is above 50, and 50
    when it is not (NaN for a sum that is NaN). So the live width, and the
    live height when there is one, are never below 50. *)
Theorem resize_clamps_to_50
    (st : AppState) (cb : Board) (id : string) (item : CanvasItem)
    (start : Point) (moves : list Point) (p : Point) :
  currentBoard st = Some cb →
  JS.find (λ i, item_id i = id) (board_items cb) = Some item →
  id ≠ "" →
  JS.truthy_str_opt (draggedItemId st) = false →
  let st1 := handleResizeStart st start id in
  let deltaX := (clientX p - clientX start)%float in
  let deltaY := (clientY p - clientY start)%float in
  ∃ snapshot width0 live_board,
    itemInitialState st1 = Some snapshot ∧
    item_width snapshot = Some width0 ∧
    currentBoard (foldl handlePointerMove st1 (moves ++ [p])) = Some live_board ∧
    (∃ k live, board_items cb !! k = Some item ∧
               board_items live_board !! k = Some live ∧ item_id live = id) ∧
    ∀ live, live ∈ board_items live_board → item_id live = id →
      item_width live = Some (JS.Math_max 50%float (width0 + deltaX)%float) ∧
      item_height live
      = match item_height snapshot with
        | Some height0 => Some (JS.Math_max 50%float (height0 + deltaY)%float)
        | None => None
        end ∧
      (∃ w, item_width live = Some w ∧ is_max_50 (width0 + deltaX)%float w) ∧
      match item_height snapshot with
      | Some height0 =>
          ∃ h, item_height live = Some h ∧ is_max_50 (height0 + deltaY)%float h
      | None => item_height live = None
      end ∧
      (∀ w, item_width live = Some w → PrimFloat.ltb w 50%float = false) ∧
      (∀ h, item_height live = Some h → PrimFloat.ltb h 50%float = false).
Proof.
  intros Hcb Hfind Hid Hd st1 deltaX deltaY.
  destruct (resize_snapshot_width item) as (width0 & Hw0 & Hw0t).
  pose proof (resize_snapshot_height item) as Hh0t.
  assert (Hst1 : st1 = set_interaction st (draggedItemId st) (Some id) start
                         (Some (resize_snapshot item)))
    by apply (handleResizeStart_found st cb id item start Hcb Hfind).
  assert (Hmove : handlePointerMove st1 p
            = set_currentBoard st1
                (Some (board_with_items cb
                   ((λ it, if decide (item_id it = id)
                           then resized (resize_snapshot item) deltaX deltaY it
                           else it) <$> board_items cb)))).
  { rewrite Hst1.
    by rewrite (handlePointerMove_resizing _ cb (resize_snapshot item) id p). }
  exists (resize_snapshot item), width0. eexists.
  rewrite foldl_handlePointerMove_last.
  split_and!; [by rewrite Hst1 | done | by rewrite Hmove | |].
  - destruct (find_lookup _ _ _ Hfind) as (k & Hk & Hitem & _).
    exists k. eexists. split; [done|]. cbn.
    rewrite list_lookup_fmap, Hk. cbn. rewrite decide_True by done.
    split; [done|]. done.
  - intros live (it0 & -> & Hin)%list_elem_of_fmap Hlive. cbn beta in Hlive |- *.
    destruct (decide (item_id it0 = id)) as [_|Hne]; [|done].
    pose proof (resized_width (resize_snapshot item) deltaX deltaY it0 width0
                  Hw0 Hw0t) as Hw.
    pose proof (resized_height (resize_snapshot item) deltaX deltaY it0 Hh0t)
      as Hh.
    split_and!.
    + exact Hw.
    + exact Hh.
    + eexists. split; [exact Hw|]. apply Math_max_50_is_max.
    + rewrite Hh. destruct (item_height (resize_snapshot item)) as [height0|];
        [|done].
      eexists. split; [done|]. apply Math_max_50_is_max.
    + apply resized_lower.
    + apply resized_lower.
Qed.

Lemma resize_clamps_to_50_witness :
  currentBoard (Sample.idle (Some Sample.ann) Sample.B1) = Some Sample.B1 ∧
  JS.find (λ i, item_id i = "i-photo") (board_items Sample.B1) = Some Sample.photo ∧
  "i-photo" ≠ "" ∧
  JS.truthy_str_opt (draggedItemId (Sample.idle (Some Sample.ann) Sample.B1)) = false ∧
  ∃ live_board,
    currentBoard
      (foldl handlePointerMove
         (handleResizeStart (Sample.idle (Some Sample.ann) Sample.B1)
            (mkPoint 0%float 0%float) "i-photo")
         ([mkPoint 40%float 40%float] ++ [mkPoint 25%float (-170)%float]))
    = Some live_board ∧
    ∀ live, live ∈ board_items live_board → item_id live = "i-photo" →
      item_width live = Some 225%float ∧ item_height live = Some 50%float.
Proof.
  assert (Hid : "i-photo" ≠ "") by discriminate.
  split_and!; [reflexivity | reflexivity | exact Hid | reflexivity |].
  destruct (resize_clamps_to_50 (Sample.idle (Some Sample.ann) Sample.B1)
              Sample.B1 "i-photo" Sample.photo (mkPoint 0%float 0%float)
              [mkPoint 40%float 40%float]
              (mkPoint 25%float (-170)%float) eq_refl eq_refl Hid eq_refl)
    as (snapshot & width0 & live_board & Hsnap & Hw0 & Hlive & _ & Hall).
  exists live_board. split; [exact Hlive|].
  intros live Hin Hlid.
  destruct (Hall live Hin Hlid) as (_ & _ & (w & Hw & Hwmax) & Hhmax & _).
  injection Hsnap as <-. injection Hw0 as <-.
  cbn [item_height resize_snapshot item_with_size Sample.photo JS.or
       JS.truthy_opt] in Hhmax.
  change (JS.truthy 200%float) with true in Hhmax. cbn iota in Hhmax.
  destruct Hhmax as (h & Hh & Hhmax).
  rewrite Hw, Hh. split; f_equal.
  - exact (proj1 (proj2 Hwmax) eq_refl eq_refl).
  - exact (proj2 (proj2 Hhmax) eq_refl eq_refl).
Defined.

(** C9, as the code has it. [handleResizeStart] takes as snapshot width and
    height the item's current values when they are truthy, that is defined,
    not zero and not NaN, and the defaults of the item's type otherwise:
    width 250 and no height for TEXT, 100 by 100 for EMOJI, 200 by 200 for
    IMAGE and STICKER. For an EMOJI item without width and height the
    snapshot is 100 by 100, and a move by (20, -60) gives the live size 120
    by 50. *)
Theorem handleResizeStart_snapshot
    (st : AppState) (cb : Board) (id : string) (item : CanvasItem) (start : Point) :
  currentBoard st = Some cb →
  JS.find (λ i, item_id i = id) (board_items cb) = Some item →
  let st1 := handleResizeStart st start id in
  ∃ snapshot,
    itemInitialState st1 = Some snapshot ∧
    resizingItemId st1 = Some id ∧
    interactionStart st1 = start ∧
    item_width snapshot
    = (if JS.truthy_opt (item_width item) then item_width item
       else Some match item_type item with
                 | TEXT => 250%float
                 | EMOJI => 100%float
                 | IMAGE | STICKER => 200%float
                 end) ∧
    item_height snapshot
    = (if JS.truthy_opt (item_height item) then item_height item
       else match item_type item with
            | TEXT => None
            | EMOJI => Some 100%float
            | IMAGE | STICKER => Some 200%float
            end) ∧
    (item_type item = EMOJI → item_width item = None → item_height item = None →
     item_width snapshot = Some 100%float ∧
     item_height snapshot = Some 100%float ∧
     ∀ p, id ≠ "" → JS.truthy_str_opt (draggedItemId st) = false →
          (clientX p - clientX start)%float = 20%float →
          (clientY p - clientY start)%float = (-60)%float →
          ∃ live_board,
            currentBoard (handlePointerMove st1 p) = Some live_board ∧
            ∀ live, live ∈ board_items live_board → item_id live = id →
              item_width live = Some 120%float ∧
              item_height live = Some 50%float).
Proof.
  intros Hcb Hfind st1.
  assert (Hst1 : st1 = set_interaction st (draggedItemId st) (Some id) start
                         (Some (resize_snapshot item)))
    by apply (handleResizeStart_found st cb id item start Hcb Hfind).
  exists (resize_snapshot item). rewrite Hst1.
  split_and!; [done..| | |].
  - cbn. unfold JS.or. destruct (JS.truthy_opt (item_width item)); [done|].
    by destruct (item_type item).
  - cbn. unfold JS.or. destruct (JS.truthy_opt (item_height item)); [done|].
    by destruct (item_type item).
  - intros Htype Hw Hh.
    assert (Hsw : item_width (resize_snapshot item) = Some 100%float)
      by (cbn; rewrite Hw, Htype; done).
    assert (Hsh : item_height (resize_snapshot item) = Some 100%float)
      by (cbn; rewrite Hh, Htype; done).
    split_and!; [done..|].
    intros p Hid Hd HdX HdY.
    rewrite (handlePointerMove_resizing _ cb (resize_snapshot item) id p) by done.
    eexists. split; [done|].
    intros live (it0 & -> & Hin)%list_elem_of_fmap Hlive. cbn beta in Hlive |- *.
    destruct (decide (item_id it0 = id)) as [_|Hne]; [|done].
    cbn [interactionStart set_interaction]. rewrite HdX, HdY.
    split.
    + by rewrite (resized_width _ _ _ _ 100%float).
    + rewrite resized_height by apply resize_snapshot_height.
      by rewrite Hsh.
Qed.

Lemma handleResizeStart_snapshot_witness :
  currentBoard (Sample.idle (Some Sample.ann) Sample.B1) = Some Sample.B1 ∧
  JS.find (λ i, item_id i = "i-emoji") (board_items Sample.B1) = Some Sample.emoji ∧
  ∃ live_board,
    currentBoard
      (handlePointerMove
         (handleResizeStart (Sample.idle (Some Sample.ann) Sample.B1)
            (mkPoint 300%float 300%float) "i-emoji")
         (mkPoint 320%float 240%float))
    = Some live_board ∧
    ∀ live, live ∈ board_items live_board → item_id live = "i-emoji" →
      item_width live = Some 120%float ∧ item_height live = Some 50%float.
Proof.
  split_and!; [reflexivity..|].
  destruct (handleResizeStart_snapshot (Sample.idle (Some Sample.ann) Sample.B1)
              Sample.B1 "i-emoji" Sample.emoji (mkPoint 300%float 300%float)
              eq_refl eq_refl)
    as (snapshot & _ & _ & _ & _ & _ & Hscenario).
  destruct (Hscenario eq_refl eq_refl eq_refl) as (_ & _ & Hmove).
  apply (Hmove (mkPoint 320%float 240%float)); [discriminate|reflexivity..].
Defined.

(** C9, as stated, fails for a width or height that is defined and zero:
    the stored width and height of [Sample.flat] are 0, and the snapshot
    holds the EMOJI defaults instead. *)
Lemma handleResizeStart_snapshot_counterexample :
  JS.find (λ i, item_id i = "i-flat") (board_items Sample.B3) = Some Sample.flat ∧
  item_width Sample.flat = Some 0%float ∧
  item_height Sample.flat = Some 0%float ∧
  (itemInitialState
     (handleResizeStart (Sample.idle (Some Sample.ann) Sample.B3)
        (mkPoint 0%float 0%float) "i-flat") ≫= item_width) = Some 100%float ∧
  (itemInitialState
     (handleResizeStart (Sample.idle (Some Sample.ann) Sample.B3)
        (mkPoint 0%float 0%float) "i-flat") ≫= item_height) = Some 100%float ∧
  (100%float : float) ≠ 0%float.
Proof.
  split_and!; [reflexivity..|]. by apply float_neq.
Qed.

(** ** One interaction at a time *)

(** C5, as stated, fails. Ann has a drag of her note in progress, begun
    at (1, 1). A pointer-down at (9, 9) on her emoji, the item at position
    1, passes the component's check and replaces the dragged id, the start
    pointer and the snapshot; a pointer-down on the emoji's resize handle
    replaces the start pointer and the snapshot and fills the resize
    slot. *)
Lemma second_start_counterexample :
  draggedItemId Sample.dragging_note = Some "i-note" ∧
  interactionStart Sample.dragging_note = mkPoint 1%float 1%float ∧
  itemInitialState Sample.dragging_note = Some Sample.note ∧
  draggedItemId
    (dispatch Sample.dragging_note (DownOnItem 1 (mkPoint 9%float 9%float)))
  = Some "i-emoji" ∧
  interactionStart
    (dispatch Sample.dragging_note (DownOnItem 1 (mkPoint 9%float 9%float)))
  = mkPoint 9%float 9%float ∧
  itemInitialState
    (dispatch Sample.dragging_note (DownOnItem 1 (mkPoint 9%float 9%float)))
  = Some Sample.emoji ∧
  dispatch Sample.dragging_note (DownOnItem 1 (mkPoint 9%float 9%float))
  ≠ Sample.dragging_note ∧
  resizingItemId
    (dispatch Sample.dragging_note (DownOnHandle 1 (mkPoint 9%float 9%float)))
  = Some "i-emoji" ∧
  interactionStart
    (dispatch Sample.dragging_note (DownOnHandle 1 (mkPoint 9%float 9%float)))
  = mkPoint 9%float 9%float ∧
  itemInitialState
    (dispatch Sample.dragging_note (DownOnHandle 1 (mkPoint 9%float 9%float)))
  = Some (resize_snapshot Sample.emoji) ∧
  dispatch Sample.dragging_note (DownOnHandle 1 (mkPoint 9%float 9%float))
  ≠ Sample.dragging_note.
Proof.
  split_and!; try reflexivity.
  - intros H. apply (f_equal draggedItemId) in H. discriminate H.
  - intros H. apply (f_equal resizingItemId) in H. discriminate H.
Qed.

Section SecondStart.

Implicit Types (st : AppState) (cb : Board) (item : CanvasItem) (e p : Point)
  (id : string).

(** A pointer-down that passes the component's check is the handler's
    call. *)
Lemma dispatch_down_authorized st k e item hostName :
  rendered st k = Some (item, hostName) →
  DraggableItem.isAuthorized (user st) item hostName = true →
  dispatch st (DownOnItem k e) = handlePointerDown st e (item_id item) ∧
  dispatch st (DownOnHandle k e) = handleResizeStart st e (item_id item).
Proof.
  intros Hk Hau. cbn [dispatch]. rewrite Hk.
  unfold DraggableItem.handlePointerDown, DraggableItem.handleResizePointerDown.
  by rewrite Hau.
Qed.

(** With a non-empty dragged id held, a move after a resize start is still
    a drag move, and it works from what the resize start wrote. *)
Lemma handlePointerMove_after_resize_start st cb id item dragged_id e p :
  currentBoard st = Some cb →
  JS.find (λ i, item_id i = id) (board_items cb) = Some item →
  draggedItemId st = Some dragged_id → dragged_id ≠ "" →
  currentBoard (handlePointerMove (handleResizeStart st e id) p)
  = Some (board_with_items cb
            ((λ it, if decide (item_id it = dragged_id)
                    then item_with_xy it
                           (item_x item + (clientX p - clientX e))%float
                           (item_y item + (clientY p - clientY e))%float
                    else it) <$> board_items cb)).
Proof.
  intros Hcb Hfind Hd Hne.
  rewrite (handleResizeStart_found st cb id item e Hcb Hfind).
  unfold handlePointerMove.
  cbn [currentBoard itemInitialState draggedItemId interactionStart
       set_interaction].
  rewrite Hcb, Hd. cbn [JS.truthy_str_opt].
  rewrite truthy_str_nonempty by done.
  cbn [currentBoard set_currentBoard]. by rewrite mapItem_by_id.
Qed.

End SecondStart.

(** C5, as the code has it. Neither [handlePointerDown] nor
    [handleResizeStart] looks at the interaction in progress, and a
    pointer-down that passes the component's check calls them. When an item
    with the id is on the open board, [handlePointerDown] holds the id as
    the dragged id, the pointer position as the start pointer and the item
    as the snapshot, and keeps the resize slot; [handleResizeStart] holds
    the id in the resize slot, the pointer position as the start pointer
    and the item with its sizes defaulted as the snapshot, and keeps the
    dragged id. With a non-empty dragged id kept, the move event after the
    render of such a resize start is a drag move of the items with the
    dragged id, from the position of the new snapshot and the new start
    pointer. When no item with the id is on the open board, the state is
    left as it was. *)
Theorem start_replaces_interaction (st : AppState) (e : Point) (id : string) :
  (∀ cb item,
     currentBoard st = Some cb →
     JS.find (λ i, item_id i = id) (board_items cb) = Some item →
     (draggedItemId (handlePointerDown st e id) = Some id ∧
      resizingItemId (handlePointerDown st e id) = resizingItemId st ∧
      interactionStart (handlePointerDown st e id) = e ∧
      itemInitialState (handlePointerDown st e id) = Some item) ∧
     (resizingItemId (handleResizeStart st e id) = Some id ∧
      draggedItemId (handleResizeStart st e id) = draggedItemId st ∧
      interactionStart (handleResizeStart st e id) = e ∧
      itemInitialState (handleResizeStart st e id) = Some (resize_snapshot item)) ∧
     (∀ dragged_id p,
        draggedItemId st = Some dragged_id → dragged_id ≠ "" →
        currentBoard
          (View.latest
             (View.handlePointerMove
                (View.render (View.handleResizeStart (View.fresh st) e id)) p))
        = Some (board_with_items cb
                  ((λ it, if decide (item_id it = dragged_id)
                          then item_with_xy it
                                 (item_x item + (clientX p - clientX e))%float
                                 (item_y item + (clientY p - clientY e))%float
                          else it) <$> board_items cb)))) ∧
  (∀ k item hostName,
     rendered st k = Some (item, hostName) →
     DraggableItem.isAuthorized (user st) item hostName = true →
     dispatch st (DownOnItem k e) = handlePointerDown st e (item_id item) ∧
     dispatch st (DownOnHandle k e) = handleResizeStart st e (item_id item)) ∧
  ((currentBoard st ≫= λ cb, JS.find (λ i, item_id i = id) (board_items cb)) = None →
   handlePointerDown st e id = st ∧ handleResizeStart st e id = st).
Proof.
  split; [|split].
  - intros cb item Hcb Hfind. split; [|split].
    + by rewrite (handlePointerDown_found st cb id item e Hcb Hfind).
    + by rewrite (handleResizeStart_found st cb id item e Hcb Hfind).
    + intros dragged_id p Hd Hne.
      rewrite view_handleResizeStart_fresh, view_handlePointerMove_same
        by apply same_interaction_refl.
      cbn [View.latest View.fresh].
      by apply handlePointerMove_after_resize_start.
  - intros k item hostName. apply dispatch_down_authorized.
  - intros Hnone. split.
    + by apply handlePointerDown_not_found.
    + by apply handleResizeStart_not_found.
Qed.

Lemma start_replaces_interaction_witness :
  draggedItemId
    (handlePointerDown Sample.dragging_note (mkPoint 9%float 9%float) "i-emoji")
  = Some "i-emoji" ∧
  dispatch Sample.dragging_note (DownOnItem 1 (mkPoint 9%float 9%float))
  = handlePointerDown Sample.dragging_note (mkPoint 9%float 9%float) "i-emoji" ∧
  (board_items <$>
     currentBoard
       (View.latest
          (View.handlePointerMove
             (View.render
                (View.handleResizeStart (View.fresh Sample.dragging_note)
                   (mkPoint 9%float 9%float) "i-emoji"))
             (mkPoint 10%float 12%float))))
  = Some [item_with_xy Sample.note 11%float 23%float; Sample.emoji; Sample.photo] ∧
  handlePointerDown Sample.dragging_note (mkPoint 9%float 9%float) "i-gone"
  = Sample.dragging_note.
Proof.
  assert (Hne : "i-note" ≠ "") by discriminate.
  split_and!.
  - exact (proj1 (proj1 (proj1 (start_replaces_interaction Sample.dragging_note
                    (mkPoint 9%float 9%float) "i-emoji")
                    Sample.B1 Sample.emoji eq_refl eq_refl))).
  - exact (proj1 (proj1 (proj2 (start_replaces_interaction Sample.dragging_note
                    (mkPoint 9%float 9%float) "i-emoji"))
                    1 Sample.emoji "Hal" eq_refl eq_refl)).
  - rewrite (proj2 (proj2 (proj1 (start_replaces_interaction Sample.dragging_note
                    (mkPoint 9%float 9%float) "i-emoji")
                    Sample.B1 Sample.emoji eq_refl eq_refl))
               "i-note" (mkPoint 10%float 12%float) eq_refl Hne).
    reflexivity.
  - exact (proj1 (proj2 (proj2 (start_replaces_interaction Sample.dragging_note
                    (mkPoint 9%float 9%float) "i-gone")) eq_refl)).
Defined.

(** ** Authorization *)

Section Authorization.

Variables (u : option User) (host : string) (items0 : list CanvasItem).
Hypothesis items0_NoDup : NoDup (item_id <$> items0).

Implicit Types (st : AppState) (it : CanvasItem).

Lemma isAuthorized_author it it' :
  item_author it' = item_author it →
  DraggableItem.isAuthorized u it' host = DraggableItem.isAuthorized u it host.
Proof. intros Ha. unfold DraggableItem.isAuthorized. by rewrite Ha. Qed.

(** An item the user may not edit does not carry the id of one they may. *)
Lemma unauthorized_id_not_authorized j it :
  items0 !! j = Some it →
  DraggableItem.isAuthorized u it host = false →
  ¬ authorized_id u host items0 (item_id it).
Proof.
  intros Hj Hun (j' & it' & Hj' & Hid & Hau).
  assert (j' = j) as ->.
  { apply (NoDup_lookup (item_id <$> items0) j' j (item_id it) items0_NoDup).
    - by rewrite list_lookup_fmap, Hj', <- Hid.
    - by rewrite list_lookup_fmap, Hj. }
  congruence.
Qed.

Lemma gated_set_interaction st d r start snapshot :
  gated u host items0 st →
  (∀ id, d = Some id → authorized_id u host items0 id) →
  (∀ id, r = Some id → authorized_id u host items0 id) →
  gated u host items0 (set_interaction st d r start snapshot).
Proof. intros (Hu & Hb & _ & _) Hd Hr. by split_and!. Qed.

Lemma gated_mapItem st target (f : CanvasItem → CanvasItem) :
  gated u host items0 st →
  (∀ it, item_id (f it) = item_id it ∧ item_author (f it) = item_author it) →
  (∀ id, target = Some id → authorized_id u host items0 id) →
  gated u host items0 (set_currentBoard st (mapItem target f (currentBoard st))).
Proof.
  intros (Hu & (cb' & Hcb & Hhost & Hlen & Hitems) & Hd & Hr) Hf Htarget.
  split_and!; [done| |done..].
  rewrite Hcb. eexists. split; [done|]. cbn.
  split_and!; [done|by rewrite length_fmap|].
  intros j it0 it'' Hj0. rewrite list_lookup_fmap.
  destruct (board_items cb' !! j) as [it'|] eqn:Hj'; [|done].
  cbn. intros [= <-].
  destruct (Hitems j it0 it' Hj0 Hj') as (Hid & Hau & Hsame).
  destruct (decide (Some (item_id it') = target)) as [Heq|Hne]; [|done].
  destruct (Hf it') as [Hfid Hfau].
  split_and!; [congruence..|].
  intros Hun. exfalso.
  apply (unauthorized_id_not_authorized j it0 Hj0 Hun).
  apply Htarget. by rewrite <- Heq, Hid.
Qed.

Lemma gated_handlePointerMove st e :
  gated u host items0 st → gated u host items0 (handlePointerMove st e).
Proof.
  intros Hg. pose proof Hg as (Hu & (cb' & Hcb & _) & Hd & Hr).
  unfold handlePointerMove. rewrite Hcb.
  destruct (itemInitialState st) as [initial|]; [|done].
  destruct (JS.truthy_str_opt (draggedItemId st));
    [|destruct (JS.truthy_str_opt (resizingItemId st)); [|done]];
    rewrite <- Hcb; by apply gated_mapItem.
Qed.

Lemma gated_handlePointerUp st :
  gated u host items0 st → gated u host items0 (handlePointerUp st).
Proof.
  intros Hg. pose proof Hg as (Hu & (cb' & Hcb & Hb) & Hd & Hr).
  unfold handlePointerUp. rewrite Hcb.
  destruct (_ || _); [|done].
  split_and!; [done| |done..]. by exists cb'.
Qed.

(** A pointer-down that passes the component's check holds the id of an
    item the user may edit. *)
Lemma rendered_authorized st k it hostName :
  gated u host items0 st →
  rendered st k = Some (it, hostName) →
  DraggableItem.isAuthorized (user st) it hostName = true →
  authorized_id u host items0 (item_id it).
Proof.
  intros (Hu & (cb' & Hcb & Hhost & Hlen & Hitems) & _) Hk Hau.
  unfold rendered in Hk. rewrite Hcb in Hk. cbn in Hk.
  destruct (board_items cb' !! k) as [it'|] eqn:Hk'; [|done].
  cbn in Hk. injection Hk as -> <-.
  destruct (lookup_lt_is_Some_2 items0 k) as [it0 Hk0].
  { rewrite <- Hlen. by eapply lookup_lt_Some. }
  destruct (Hitems k it0 it Hk0 Hk') as (Hid & Hauthor & _).
  exists k, it0. split_and!; [done..|].
  rewrite <- (isAuthorized_author it0 it Hauthor). by rewrite <- Hu, <- Hhost.
Qed.

Lemma gated_handlePointerDown st e id :
  gated u host items0 st → authorized_id u host items0 id →
  gated u host items0 (handlePointerDown st e id).
Proof.
  intros Hg Hid. pose proof Hg as (_ & _ & _ & Hr). unfold handlePointerDown.
  destruct (_ ≫= _); [|done].
  apply gated_set_interaction; [done| |done]. by intros ? [= <-].
Qed.

Lemma gated_handleResizeStart st e id :
  gated u host items0 st → authorized_id u host items0 id →
  gated u host items0 (handleResizeStart st e id).
Proof.
  intros Hg Hid. pose proof Hg as (_ & _ & Hd & _). unfold handleResizeStart.
  destruct (_ ≫= _); [|done].
  apply gated_set_interaction; [done|done|]. by intros ? [= <-].
Qed.

Lemma gated_dispatch st ev :
  gated u host items0 st → gated u host items0 (dispatch st ev).
Proof.
  intros Hg. destruct ev as [k e|k e|e|]; cbn.
  - destruct (rendered st k) as [[it hostName]|] eqn:Hk; [|done].
    unfold DraggableItem.handlePointerDown.
    destruct (DraggableItem.isAuthorized _ _ _) eqn:Hau; [|done].
    eauto using gated_handlePointerDown, rendered_authorized.
  - destruct (rendered st k) as [[it hostName]|] eqn:Hk; [|done].
    unfold DraggableItem.handleResizePointerDown.
    destruct (DraggableItem.isAuthorized _ _ _) eqn:Hau; [|done].
    eauto using gated_handleResizeStart, rendered_authorized.
  - by apply gated_handlePointerMove.
  - by apply gated_handlePointerUp.
Qed.

Lemma gated_run st evs :
  gated u host items0 st → gated u host items0 (run st evs).
Proof.
  unfold run. revert st. induction evs as [|ev evs IH]; [done|].
  intros st Hg. cbn. by apply IH, gated_dispatch.
Qed.

End Authorization.

Section Gate.

Implicit Types (st : AppState) (cb : Board) (item : CanvasItem).

Lemma isAuthorized_false (currentUser : option User) item hostName :
  (∀ usr, currentUser = Some usr →
          user_name usr ≠ item_author item ∧ user_name usr ≠ hostName) →
  DraggableItem.isAuthorized currentUser item hostName = false.
Proof.
  intros Hne. destruct currentUser as [usr|]; [|done]. cbn.
  destruct (Hne usr eq_refl) as [Ha Hh].
  by rewrite !bool_decide_eq_false_2.
Qed.

Lemma gated_at_rest st cb :
  currentBoard st = Some cb →
  draggedItemId st = None → resizingItemId st = None →
  gated (user st) (board_host cb) (board_items cb) st.
Proof.
  intros Hcb Hd Hr. split_and!; [done| |by rewrite Hd|by rewrite Hr].
  exists cb. split_and!; [done..|].
  intros j it0 it' Hj0 Hj'. assert (it' = it0) as -> by congruence. done.
Qed.

(** The item at a position [user st] may not edit is still there after any
    events, and a pointer-down on it is dropped. *)
Lemma gated_unauthorized_position st0 cb k item st :
  gated (user st0) (board_host cb) (board_items cb) st →
  board_items cb !! k = Some item →
  DraggableItem.isAuthorized (user st0) item (board_host cb) = false →
  (∃ cb', currentBoard st = Some cb' ∧ board_items cb' !! k = Some item) ∧
  (∀ e, dispatch st (DownOnItem k e) = st ∧ dispatch st (DownOnHandle k e) = st).
Proof.
  intros (Hu & (cb' & Hcb & Hhost & Hlen & Hitems) & _) Hk Hun.
  destruct (lookup_lt_is_Some_2 (board_items cb') k) as [it' Hk'].
  { rewrite Hlen. by eapply lookup_lt_Some. }
  destruct (Hitems k item it' Hk Hk') as (_ & _ & Hsame).
  rewrite (Hsame Hun) in Hk'.
  split; [by exists cb'|].
  intros e. cbn. unfold rendered. rewrite Hcb. cbn. rewrite Hk'. cbn.
  unfold DraggableItem.handlePointerDown, DraggableItem.handleResizePointerDown.
  by rewrite Hu, Hhost, Hun.
Qed.

End Gate.

(** C7. The board view is at rest, the item ids of the open board are
    pairwise distinct, and the current user, if there is one, has a name
    that is neither the author of the item at position [k] nor the board's
    host. Then, after any pointer events on the view, a pointer-down on
    that item or on its resize handle leaves the state as it is, and the
    item is still at position [k] of the open board with every field,
    [x], [y], [width] and [height] among them, as it was. *)
Theorem unauthorized_user_never_mutates
    (st : AppState) (cb : Board) (k : nat) (item : CanvasItem)
    (evs : list PointerEvent) :
  currentBoard st = Some cb →
  draggedItemId st = None → resizingItemId st = None →
  NoDup (item_id <$> board_items cb) →
  board_items cb !! k = Some item →
  (∀ usr, user st = Some usr →
          user_name usr ≠ item_author item ∧ user_name usr ≠ board_host cb) →
  (∀ e, dispatch (run st evs) (DownOnItem k e) = run st evs ∧
        dispatch (run st evs) (DownOnHandle k e) = run st evs) ∧
  ∃ cb', currentBoard (run st evs) = Some cb' ∧
         board_items cb' !! k = Some item ∧
         (∀ live, board_items cb' !! k = Some live →
            item_x live = item_x item ∧ item_y live = item_y item ∧
            item_width live = item_width item ∧
            item_height live = item_height item).
Proof.
  intros Hcb Hd Hr Hnd Hk Hne.
  pose proof (isAuthorized_false (user st) item (board_host cb) Hne) as Hun.
  pose proof (gated_run _ _ _ Hnd st evs (gated_at_rest st cb Hcb Hd Hr)) as Hg.
  destruct (gated_unauthorized_position st cb k item (run st evs) Hg Hk Hun)
    as [(cb' & Hcb' & Hk') Hdown].
  split; [done|].
  exists cb'. split_and!; [done..|].
  intros live Hlive. assert (live = item) as -> by congruence. done.
Qed.

Lemma unauthorized_user_never_mutates_witness :
  currentBoard (Sample.idle (Some Sample.ann) Sample.B1) = Some Sample.B1 ∧
  NoDup (item_id <$> board_items Sample.B1) ∧
  board_items Sample.B1 !! 2 = Some Sample.photo ∧
  ∃ cb',
    currentBoard
      (run (Sample.idle (Some Sample.ann) Sample.B1)
         [DownOnItem 0 (mkPoint 1%float 1%float); Move (mkPoint 50%float 60%float);
          DownOnItem 2 (mkPoint 3%float 3%float); Move (mkPoint 70%float 80%float);
          Up; DownOnHandle 2 (mkPoint 4%float 4%float);
          Move (mkPoint 90%float 10%float); Up])
    = Some cb' ∧
    board_items cb' !! 2 = Some Sample.photo.
Proof.
  assert (Hnd : NoDup (item_id <$> board_items Sample.B1)).
  { apply (bool_decide_unpack _). vm_compute. exact I. }
  split_and!; [reflexivity | exact Hnd | reflexivity |].
  destruct (unauthorized_user_never_mutates
              (Sample.idle (Some Sample.ann) Sample.B1) Sample.B1 2 Sample.photo
              [DownOnItem 0 (mkPoint 1%float 1%float); Move (mkPoint 50%float 60%float);
               DownOnItem 2 (mkPoint 3%float 3%float); Move (mkPoint 70%float 80%float);
               Up; DownOnHandle 2 (mkPoint 4%float 4%float);
               Move (mkPoint 90%float 10%float); Up]
              eq_refl eq_refl eq_refl Hnd eq_refl)
    as (_ & cb' & Hcb' & Hk & _).
  - intros usr [= <-]. split; discriminate.
  - exists cb'. by split.
Defined.

(** ** The statements on the sample boards *)

Example changeItemLayer_front_sample :
  board_items <$>
    currentBoard (changeItemLayer (Sample.idle (Some Sample.ann) Sample.B1)
                    "i-note" front)
  = Some [Sample.emoji; Sample.photo; Sample.note].
Proof. reflexivity. Qed.

Example changeItemLayer_back_sample :
  board_items <$>
    currentBoard (changeItemLayer (Sample.idle (Some Sample.ann) Sample.B1)
                    "i-photo" back)
  = Some [Sample.photo; Sample.note; Sample.emoji].
Proof. reflexivity. Qed.

(** Without distinct ids the gate of [DraggableItem] does not protect an
    item: Ann drags her own twin, and Bob's, which has the same id, moves
    with it, to the place the snapshot of Bob's item and the delta give. *)
Example shared_id_moves_both :
  DraggableItem.isAuthorized (Some Sample.ann) Sample.twin_bob "Hal" = false ∧
  board_items <$>
    currentBoard
      (run (Sample.idle (Some Sample.ann) Sample.B4)
         [DownOnItem 1 (mkPoint 0%float 0%float); Move (mkPoint 30%float 40%float); Up])
  = Some [item_with_xy Sample.twin_bob 30%float 40%float;
          item_with_xy Sample.twin_ann 30%float 40%float].
Proof. split; reflexivity. Qed.

(** A drag with no move event commits the board as it was. *)
Example drag_without_move_sample :
  currentBoard
    (run (Sample.idle (Some Sample.ann) Sample.B1)
       [DownOnItem 0 (mkPoint 1%float 1%float); Up])
  = Some Sample.B1.
Proof. reflexivity. Qed.

(** A width of the snapshot that is missing counts as 0 in a move, and a
    height of the snapshot that is 0 gives no height: the resize branch
    reads both by truthiness. After [handleResizeStart] neither occurs. *)
Example resized_falsy_snapshot_sample :
  item_width (resized Sample.emoji 20%float 7%float Sample.photo) = Some 50%float ∧
  item_height (resized Sample.flat 20%float 7%float Sample.photo) = None.
Proof. split; reflexivity. Qed.

(** * Further properties *)

(** ** Records written back unchanged *)

Section Eta.

Lemma board_with_items_same (b : Board) : board_with_items b (board_items b) = b.
Proof. by destruct b. Qed.

Lemma set_currentBoard_same (st : AppState) (o : option Board) :
  currentBoard st = o → set_currentBoard st o = st.
Proof. intros <-. by destruct st. Qed.

End Eta.

(** ** Deleting and adding items *)

Section ItemLifecycle.

Implicit Types (st : AppState) (cb : Board) (it : CanvasItem) (id : string).

Lemma filter_other_ids_absent (items : list CanvasItem) id :
  id ∉ item_id <$> items → filter (λ i, item_id i ≠ id) items = items.
Proof.
  induction items as [|it items IH]; [done|].
  rewrite fmap_cons, not_elem_of_cons. intros [Hne Hid].
  rewrite filter_cons_True by congruence. by rewrite IH.
Qed.

Lemma filter_other_ids_gone (items : list CanvasItem) id :
  id ∉ item_id <$> filter (λ i, item_id i ≠ id) items.
Proof.
  intros (it & -> & Hin)%list_elem_of_fmap.
  apply list_elem_of_filter in Hin as [Hne _]. done.
Qed.

Lemma deleteItem_open st cb id :
  currentBoard st = Some cb →
  deleteItem st id
  = saveAndBroadcastBoard st
      (board_with_items cb (filter (λ i, item_id i ≠ id) (board_items cb))).
Proof. intros Hcb. unfold deleteItem. by rewrite Hcb. Qed.

Lemma addItem_open st cb usr env type content color textColor :
  currentBoard st = Some cb → user st = Some usr →
  addItem st env type content color textColor
  = saveAndBroadcastBoard st
      (board_with_items cb
         (board_items cb
            ++ [newItem env (user_name usr) type content color textColor])).
Proof. intros Hcb Hu. unfold addItem. by rewrite Hcb, Hu. Qed.

End ItemLifecycle.

(** X1. With a board open, [deleteItem id] leaves no item with that id on
    it, keeps every other item in the order it had, and stores and
    broadcasts the result. When no item has the id the items are as
    before, and the board is stored and broadcast all the same. *)
Theorem deleteItem_removes_every_match (st : AppState) (cb : Board) (id : string) :
  currentBoard st = Some cb →
  ∃ cb',
    currentBoard (deleteItem st id) = Some cb' ∧
    (id ∉ item_id <$> board_items cb') ∧
    (board_items cb' `sublist_of` board_items cb) ∧
    (∀ it, item_id it ≠ id → it ∈ board_items cb → it ∈ board_items cb') ∧
    (id ∉ item_id <$> board_items cb → cb' = cb) ∧
    JS.find (λ b, board_id b = board_id cb) (boards (deleteItem st id)) = Some cb' ∧
    channelRef (deleteItem st id)
    = (λ log, log ++ [mkMessage UPDATE_BOARD cb']) <$> channelRef st.
Proof.
  intros Hcb. rewrite (deleteItem_open st cb id Hcb). eexists.
  split_and!; [done| | | | |apply (find_upsertBoard_eq (board_with_items cb _))|done].
  - apply filter_other_ids_gone.
  - apply sublist_filter.
  - intros it Hne Hin. cbn. by apply list_elem_of_filter.
  - intros Hid. rewrite filter_other_ids_absent by done.
    apply board_with_items_same.
Qed.

Lemma deleteItem_removes_every_match_witness :
  currentBoard Scene.ann_on_B1 = Some Sample.B1 ∧
  ∃ cb', currentBoard (deleteItem Scene.ann_on_B1 "i-emoji") = Some cb' ∧
         "i-emoji" ∉ item_id <$> board_items cb'.
Proof.
  split; [reflexivity|].
  destruct (deleteItem_removes_every_match Scene.ann_on_B1 Sample.B1 "i-emoji"
              eq_refl) as (cb' & Hcb' & Hgone & _).
  by exists cb'.
Defined.

(** X3. With a board open and a user logged in, [addItem] puts one new
    item after all the others, which stay as they are: it has the
    generated id, the user as author, and the width and height that
    [handleResizeStart] takes as defaults for its type. Without a board or
    without a user nothing happens. *)
Theorem addItem_appends_on_top
    (st : AppState) (env : AddEnv) (type : ItemType) (content : string)
    (color textColor : option string) :
  (∀ cb usr, currentBoard st = Some cb → user st = Some usr →
     ∃ it,
       board_items <$> currentBoard (addItem st env type content color textColor)
       = Some (board_items cb ++ [it]) ∧
       item_id it = generated_id env ∧
       item_author it = user_name usr ∧
       item_type it = type ∧ item_content it = content ∧
       item_width it = Some (defaultWidth type) ∧
       item_height it = defaultHeight type ∧
       channelRef (addItem st env type content color textColor)
       = (λ log, log ++ [mkMessage UPDATE_BOARD
                           (board_with_items cb (board_items cb ++ [it]))])
           <$> channelRef st) ∧
  (currentBoard st = None ∨ user st = None →
   addItem st env type content color textColor = st).
Proof.
  split.
  - intros cb usr Hcb Hu.
    rewrite (addItem_open st cb usr env type content color textColor Hcb Hu).
    exists (newItem env (user_name usr) type content color textColor).
    split_and!; try done; by destruct type.
  - unfold addItem. intros [-> | ->]; [done|]. by destruct (currentBoard st).
Qed.

Lemma addItem_appends_on_top_witness :
  board_items <$>
    currentBoard (addItem Scene.ann_on_B1 Scene.env EMOJI "!" None None)
  = Some (board_items Sample.B1
            ++ [newItem Scene.env "Ann" EMOJI "!" None None]).
Proof.
  destruct (proj1 (addItem_appends_on_top Scene.ann_on_B1 Scene.env EMOJI "!"
                     None None) Sample.B1 Sample.ann eq_refl eq_refl)
    as (it & Hitems & _).
  reflexivity.
Defined.

Section FreshItem.

Implicit Types (st : AppState) (cb : Board) (it : CanvasItem) (id : string).

Lemma find_app_fresh (items : list CanvasItem) it :
  item_id it ∉ item_id <$> items →
  list_find (λ i, item_id i = item_id it) (items ++ [it])
  = Some (length items, it).
Proof.
  intros Hfresh. rewrite list_find_app_r.
  - unfold list_find. rewrite decide_True by done. done.
  - apply list_find_None, Forall_forall. intros i Hin Heq.
    apply Hfresh, list_elem_of_fmap. eauto.
Qed.

Lemma newItem_id env author type content color textColor :
  item_id (newItem env author type content color textColor) = generated_id env.
Proof. by destruct type. Qed.

Lemma newItem_author env author type content color textColor :
  item_author (newItem env author type content color textColor) = author.
Proof. by destruct type. Qed.

Lemma resize_snapshot_newItem env author type content color textColor :
  resize_snapshot (newItem env author type content color textColor)
  = newItem env author type content color textColor.
Proof. by destruct type. Qed.

Lemma isAuthorized_author_self usr it hostName :
  item_author it = user_name usr →
  DraggableItem.isAuthorized (Some usr) it hostName = true.
Proof. intros Ha. cbn. by rewrite bool_decide_eq_true_2. Qed.

Lemma isAuthorized_host usr it :
  DraggableItem.isAuthorized (Some usr) it (user_name usr) = true.
Proof.
  cbn. rewrite (bool_decide_eq_true_2 (user_name usr = user_name usr)) by done.
  apply orb_true_r.
Qed.

End FreshItem.

(** X4. The item a user has just added under an id no other item of the
    board has is theirs to edit: a pointer-down on it starts a drag of it,
    and a pointer-down on its resize handle starts a resize whose snapshot
    is the item as added, [addItem] and [handleResizeStart] having the same
    default sizes. *)
Theorem added_item_is_editable
    (st : AppState) (cb : Board) (usr : User) (env : AddEnv) (type : ItemType)
    (content : string) (color textColor : option string) (e : Point) :
  currentBoard st = Some cb → user st = Some usr →
  generated_id env ∉ item_id <$> board_items cb →
  let st' := addItem st env type content color textColor in
  let it := newItem env (user_name usr) type content color textColor in
  let k := length (board_items cb) in
  (draggedItemId (dispatch st' (DownOnItem k e)) = Some (generated_id env) ∧
   interactionStart (dispatch st' (DownOnItem k e)) = e ∧
   itemInitialState (dispatch st' (DownOnItem k e)) = Some it) ∧
  (resizingItemId (dispatch st' (DownOnHandle k e)) = Some (generated_id env) ∧
   interactionStart (dispatch st' (DownOnHandle k e)) = e ∧
   itemInitialState (dispatch st' (DownOnHandle k e)) = Some it).
Proof.
  intros Hcb Hu Hfresh st' it k.
  assert (Hst' : st' = saveAndBroadcastBoard st
            (board_with_items cb (board_items cb ++ [it])))
    by apply (addItem_open st cb usr env type content color textColor Hcb Hu).
  assert (Hid : item_id it = generated_id env) by apply newItem_id.
  rewrite <- Hid in Hfresh |- *.
  assert (Hfind : JS.find (λ i, item_id i = item_id it)
                    (board_items cb ++ [it]) = Some it).
  { unfold JS.find. by rewrite (find_app_fresh (board_items cb) it Hfresh). }
  assert (Hk : rendered st' k = Some (it, board_host cb)).
  { rewrite Hst'. unfold rendered. cbn.
    rewrite lookup_app_r by done. by rewrite Nat.sub_diag. }
  assert (Hau : DraggableItem.isAuthorized (user st') it (board_host cb) = true).
  { rewrite Hst'. cbn [user saveAndBroadcastBoard postMessage set_boards
                         set_currentBoard]. rewrite Hu.
    apply isAuthorized_author_self, newItem_author. }
  cbn [dispatch]. rewrite Hk.
  unfold DraggableItem.handlePointerDown, DraggableItem.handleResizePointerDown.
  rewrite Hau. split.
  - rewrite (handlePointerDown_found st' (board_with_items cb (board_items cb ++ [it]))
               (item_id it) it e); [done|by rewrite Hst'|done].
  - rewrite (handleResizeStart_found st' (board_with_items cb (board_items cb ++ [it]))
               (item_id it) it e); [|by rewrite Hst'|done].
    cbn. split_and!; [done..|].
    f_equal. apply resize_snapshot_newItem.
Qed.

Lemma added_item_is_editable_witness :
  currentBoard Scene.ann_on_B1 = Some Sample.B1 ∧
  (generated_id Scene.env ∉ item_id <$> board_items Sample.B1) ∧
  itemInitialState
    (dispatch (addItem Scene.ann_on_B1 Scene.env TEXT "yo" None None)
       (DownOnHandle 3 (mkPoint 7%float 7%float)))
  = Some (newItem Scene.env "Ann" TEXT "yo" None None).
Proof.
  assert (Hfresh : generated_id Scene.env ∉ item_id <$> board_items Sample.B1).
  { apply (bool_decide_unpack _). vm_compute. exact I. }
  split_and!; [reflexivity | exact Hfresh |].
  exact (proj2 (proj2 (proj2 (added_item_is_editable Scene.ann_on_B1 Sample.B1
           Sample.ann Scene.env TEXT "yo" None None (mkPoint 7%float 7%float)
           eq_refl eq_refl Hfresh)))).
Defined.

(** X5. Adding an item under an id no item of the board has and deleting
    that id again gives back the open board as it was. *)
Theorem addItem_deleteItem_round_trip
    (st : AppState) (cb : Board) (usr : User) (env : AddEnv) (type : ItemType)
    (content : string) (color textColor : option string) :
  currentBoard st = Some cb → user st = Some usr →
  generated_id env ∉ item_id <$> board_items cb →
  currentBoard
    (deleteItem (addItem st env type content color textColor) (generated_id env))
  = Some cb.
Proof.
  intros Hcb Hu Hfresh.
  rewrite (addItem_open st cb usr env type content color textColor Hcb Hu).
  rewrite (deleteItem_open _ (board_with_items cb
             (board_items cb
                ++ [newItem env (user_name usr) type content color textColor])))
    by done.
  cbn. f_equal. rewrite filter_app, filter_other_ids_absent by done.
  rewrite filter_cons_False by (rewrite newItem_id; intros H; by apply H).
  rewrite filter_nil, app_nil_r. by destruct cb.
Qed.

Lemma addItem_deleteItem_round_trip_witness :
  currentBoard Scene.ann_on_B1 = Some Sample.B1 ∧
  (generated_id Scene.env ∉ item_id <$> board_items Sample.B1) ∧
  currentBoard
    (deleteItem (addItem Scene.ann_on_B1 Scene.env STICKER "data:," None None)
       (generated_id Scene.env))
  = Some Sample.B1.
Proof.
  assert (Hfresh : generated_id Scene.env ∉ item_id <$> board_items Sample.B1).
  { apply (bool_decide_unpack _). vm_compute. exact I. }
  split_and!; [reflexivity | exact Hfresh |].
  exact (addItem_deleteItem_round_trip Scene.ann_on_B1 Sample.B1 Sample.ann
           Scene.env STICKER "data:," None None eq_refl eq_refl Hfresh).
Defined.

(** ** Interactions and the rest of the application *)

Section MoveTargets.

Implicit Types (st : AppState) (cb : Board) (it : CanvasItem) (id : string)
  (p : Point).

Lemma mapItem_no_match target (f : CanvasItem → CanvasItem) cb :
  (∀ id, target = Some id → id ∉ item_id <$> board_items cb) →
  mapItem target f (Some cb) = Some cb.
Proof.
  intros Hno. cbn. f_equal.
  transitivity (board_with_items cb (board_items cb));
    [|apply board_with_items_same].
  f_equal. transitivity (id <$> board_items cb); [|apply list_fmap_id].
  apply list_fmap_ext. intros j it Hit. cbn.
  destruct (decide (Some (item_id it) = target)) as [Heq|]; [|done].
  exfalso. apply (Hno (item_id it)); [done|].
  apply list_elem_of_fmap. exists it. split; [done|].
  by eapply list_elem_of_lookup_2.
Qed.

(** A move event whose interaction id no item has changes nothing. *)
Lemma handlePointerMove_no_target st cb p :
  currentBoard st = Some cb →
  (∀ id, moving_id st = Some id → id ∉ item_id <$> board_items cb) →
  handlePointerMove st p = st.
Proof.
  intros Hcb Hno. unfold handlePointerMove, moving_id in *. rewrite Hcb.
  destruct (itemInitialState st) as [initial|]; [|done].
  destruct (JS.truthy_str_opt (draggedItemId st));
    [|destruct (JS.truthy_str_opt (resizingItemId st)); [|done]];
    rewrite mapItem_no_match by done; by apply set_currentBoard_same.
Qed.

Lemma moving_id_truthy st id :
  moving_id st = Some id →
  JS.truthy_str_opt (draggedItemId st) || JS.truthy_str_opt (resizingItemId st)
  = true.
Proof.
  unfold moving_id. destruct (JS.truthy_str_opt (draggedItemId st)); [done|].
  by destruct (JS.truthy_str_opt (resizingItemId st)).
Qed.

End MoveTargets.

(** X2. When the item of the interaction in progress is deleted, the move
    events that follow change nothing, and the release stores the board
    without the item and ends the interaction. *)
Theorem delete_during_interaction
    (st : AppState) (cb : Board) (id : string) (moves : list Point) :
  currentBoard st = Some cb →
  moving_id st = Some id →
  let st1 := deleteItem st id in
  let st2 := foldl handlePointerMove st1 moves in
  st2 = st1 ∧
  ∃ cb', currentBoard st1 = Some cb' ∧
         (id ∉ item_id <$> board_items cb') ∧
         currentBoard (handlePointerUp st2) = Some cb' ∧
         JS.find (λ b, board_id b = board_id cb) (boards (handlePointerUp st2))
         = Some cb' ∧
         draggedItemId (handlePointerUp st2) = None ∧
         resizingItemId (handlePointerUp st2) = None ∧
         itemInitialState (handlePointerUp st2) = None.
Proof.
  intros Hcb Hmoving st1 st2.
  set (cb' := board_with_items cb (filter (λ i, item_id i ≠ id) (board_items cb))).
  assert (Hst1 : st1 = saveAndBroadcastBoard st cb')
    by apply (deleteItem_open st cb id Hcb).
  assert (Hcb1 : currentBoard st1 = Some cb') by (by rewrite Hst1).
  assert (Hmoving1 : moving_id st1 = Some id) by (by rewrite Hst1).
  assert (Hgone : id ∉ item_id <$> board_items cb')
    by apply filter_other_ids_gone.
  assert (Hst2 : st2 = st1).
  { subst st2. induction moves as [|m ms IH] using rev_ind; [done|].
    rewrite foldl_snoc, IH. apply (handlePointerMove_no_target st1 cb'); [done|].
    intros id' Hid'. assert (id' = id) as -> by congruence. done. }
  split; [done|]. exists cb'. rewrite Hst2.
  split_and!; [done..| | | | |];
    unfold handlePointerUp; rewrite (moving_id_truthy st1 id Hmoving1), Hcb1;
    try done.
  cbn. rewrite Hst1. cbn. apply (find_upsertBoard_eq cb').
Qed.

Lemma delete_during_interaction_witness :
  currentBoard Sample.dragging_note = Some Sample.B1 ∧
  moving_id Sample.dragging_note = Some "i-note" ∧
  foldl handlePointerMove (deleteItem Sample.dragging_note "i-note")
    [mkPoint 30%float 40%float; mkPoint 50%float 60%float]
  = deleteItem Sample.dragging_note "i-note".
Proof.
  split_and!; [reflexivity..|].
  exact (proj1 (delete_during_interaction Sample.dragging_note Sample.B1 "i-note"
                  [mkPoint 30%float 40%float; mkPoint 50%float 60%float]
                  eq_refl eq_refl)).
Defined.

Section GeometryOnly.

Implicit Types (st : AppState) (cb : Board) (it : CanvasItem) (id : string).

Lemma ungeometry_dragged initial dx dy it :
  ungeometry (dragged initial dx dy it) = ungeometry it.
Proof. done. Qed.

Lemma ungeometry_resized initial dx dy it :
  ungeometry (resized initial dx dy it) = ungeometry it.
Proof. done. Qed.

Lemma ungeometry_mapItem target (f : CanvasItem → CanvasItem) (o : option Board) :
  (∀ it, ungeometry (f it) = ungeometry it) →
  ungeometry_board <$> mapItem target f o = ungeometry_board <$> o.
Proof.
  intros Hf. destruct o as [b|]; [|done]. cbn. f_equal.
  unfold ungeometry_board. cbn. f_equal.
  rewrite <- list_fmap_compose. apply list_fmap_ext. intros _ it _. cbn.
  by destruct (decide _).
Qed.

Lemma currentBoard_handlePointerDown st e id :
  currentBoard (handlePointerDown st e id) = currentBoard st.
Proof. unfold handlePointerDown. by destruct (_ ≫= _). Qed.

Lemma currentBoard_handleResizeStart st e id :
  currentBoard (handleResizeStart st e id) = currentBoard st.
Proof. unfold handleResizeStart. by destruct (_ ≫= _). Qed.

Lemma currentBoard_handlePointerUp st :
  currentBoard (handlePointerUp st) = currentBoard st.
Proof.
  unfold handlePointerUp. destruct (_ || _); [|done].
  by destruct (currentBoard st) eqn:E.
Qed.

Lemma ungeometry_handlePointerMove st e :
  ungeometry_board <$> currentBoard (handlePointerMove st e)
  = ungeometry_board <$> currentBoard st.
Proof.
  unfold handlePointerMove.
  destruct (currentBoard st) as [cb|] eqn:Hcb; [|by rewrite Hcb].
  destruct (itemInitialState st) as [initial|]; [|by rewrite Hcb].
  destruct (JS.truthy_str_opt (draggedItemId st));
    [|destruct (JS.truthy_str_opt (resizingItemId st)); [|by rewrite Hcb]];
    cbn [currentBoard set_currentBoard]; by rewrite ungeometry_mapItem.
Qed.

Lemma ungeometry_dispatch st ev :
  ungeometry_board <$> currentBoard (dispatch st ev)
  = ungeometry_board <$> currentBoard st ∧
  user (dispatch st ev) = user st.
Proof.
  destruct ev as [k e|k e|e|]; cbn [dispatch].
  - destruct (rendered st k) as [[it hostName]|]; [|done].
    unfold DraggableItem.handlePointerDown.
    destruct (DraggableItem.isAuthorized _ _ _); [|done].
    rewrite currentBoard_handlePointerDown. split; [done|].
    unfold handlePointerDown. by destruct (_ ≫= _).
  - destruct (rendered st k) as [[it hostName]|]; [|done].
    unfold DraggableItem.handleResizePointerDown.
    destruct (DraggableItem.isAuthorized _ _ _); [|done].
    rewrite currentBoard_handleResizeStart. split; [done|].
    unfold handleResizeStart. by destruct (_ ≫= _).
  - split; [apply ungeometry_handlePointerMove|].
    unfold handlePointerMove.
    destruct (currentBoard st), (itemInitialState st); try done.
    destruct (JS.truthy_str_opt (draggedItemId st)); [done|].
    by destruct (JS.truthy_str_opt (resizingItemId st)).
  - rewrite currentBoard_handlePointerUp. split; [done|].
    unfold handlePointerUp. destruct (_ || _); [|done].
    by destruct (currentBoard st).
Qed.

Lemma ungeometry_run st (evs : list PointerEvent) :
  ungeometry_board <$> currentBoard (run st evs)
  = ungeometry_board <$> currentBoard st ∧
  user (run st evs) = user st.
Proof.
  unfold run. revert st. induction evs as [|ev evs IH]; [done|].
  intros st. cbn. destruct (IH (dispatch st ev)) as [-> ->].
  apply ungeometry_dispatch.
Qed.

End GeometryOnly.

(** X6. Pointer events change nothing of the open board but the position
    and the size of its items: whoever the user and whatever the state,
    after any events the board without its items' [x], [y], [width] and
    [height] is as before, so no item is added, removed, reordered or
    rewritten, and no board is opened or closed. *)
Theorem pointer_events_change_geometry_only (st : AppState) (evs : list PointerEvent) :
  ungeometry_board <$> currentBoard (run st evs)
  = ungeometry_board <$> currentBoard st ∧
  user (run st evs) = user st.
Proof.
  destruct (ungeometry_run st evs) as [Hboard Huser].
  split; [exact Hboard | exact Huser].
Qed.

(** X7. For a viewer who may edit no item of the open board, a logged-out
    one among them, pointer events on a view at rest do nothing at all:
    the state after any events is the state before, so nothing is stored
    and nothing is broadcast. *)
Theorem pointer_events_inert_without_rights (st : AppState) (evs : list PointerEvent) :
  draggedItemId st = None → resizingItemId st = None →
  (∀ cb it, currentBoard st = Some cb → it ∈ board_items cb →
            DraggableItem.isAuthorized (user st) it (board_host cb) = false) →
  run st evs = st.
Proof.
  intros Hd Hr Hun. unfold run.
  induction evs as [|ev evs IH] using rev_ind; [done|].
  rewrite foldl_snoc, IH. destruct ev as [k e|k e|e|]; cbn [dispatch].
  - destruct (rendered st k) as [[it hostName]|] eqn:Hk; [|done].
    unfold rendered in Hk. destruct (currentBoard st) as [cb|] eqn:Hcb; [|done].
    cbn in Hk. destruct (board_items cb !! k) as [it'|] eqn:Hk'; [|done].
    cbn in Hk. injection Hk as -> <-.
    unfold DraggableItem.handlePointerDown.
    by rewrite (Hun cb it eq_refl (list_elem_of_lookup_2 _ _ _ Hk')).
  - destruct (rendered st k) as [[it hostName]|] eqn:Hk; [|done].
    unfold rendered in Hk. destruct (currentBoard st) as [cb|] eqn:Hcb; [|done].
    cbn in Hk. destruct (board_items cb !! k) as [it'|] eqn:Hk'; [|done].
    cbn in Hk. injection Hk as -> <-.
    unfold DraggableItem.handleResizePointerDown.
    by rewrite (Hun cb it eq_refl (list_elem_of_lookup_2 _ _ _ Hk')).
  - unfold handlePointerMove. rewrite Hd, Hr.
    by destruct (currentBoard st), (itemInitialState st).
  - unfold handlePointerUp. by rewrite Hd, Hr.
Qed.

Lemma pointer_events_inert_without_rights_witness :
  run (Sample.idle None Sample.B1)
    [DownOnItem 0 (mkPoint 1%float 1%float); Move (mkPoint 50%float 60%float);
     DownOnHandle 2 (mkPoint 3%float 3%float); Move (mkPoint 9%float 9%float); Up]
  = Sample.idle None Sample.B1.
Proof.
  apply pointer_events_inert_without_rights; [reflexivity..|].
  intros cb it _ _. reflexivity.
Defined.

(** The handlers of a resize run one after the other, each in the state
    the one before left: what the release stores is the board in which
    every item with the id has the size the snapshot and [final - start]
    give. *)
Lemma resize_release_chain
    (st : AppState) (cb : Board) (id : string) (item : CanvasItem)
    (start : Point) (moves : list Point) (final : Point) :
  currentBoard st = Some cb →
  JS.find (λ i, item_id i = id) (board_items cb) = Some item →
  id ≠ "" →
  JS.truthy_str_opt (draggedItemId st) = false →
  let deltaX := (clientX final - clientX start)%float in
  let deltaY := (clientY final - clientY start)%float in
  let committed :=
    board_with_items cb
      ((λ it, if decide (item_id it = id)
              then resized (resize_snapshot item) deltaX deltaY it else it)
         <$> board_items cb) in
  let st' :=
    handlePointerUp
      (foldl handlePointerMove (handleResizeStart st start id) (moves ++ [final])) in
  currentBoard st' = Some committed ∧
  boards st' = upsertBoard committed (boards st) ∧
  JS.find (λ b, board_id b = board_id cb) (boards st') = Some committed ∧
  channelRef st'
  = (λ log, log ++ [mkMessage UPDATE_BOARD committed]) <$> channelRef st ∧
  draggedItemId st' = None ∧ resizingItemId st' = None ∧
  itemInitialState st' = None ∧
  (∀ it, it ∈ board_items committed → item_id it = id →
     (∀ w, item_width it = Some w → PrimFloat.ltb w 50%float = false) ∧
     (∀ h, item_height it = Some h → PrimFloat.ltb h 50%float = false)).
Proof.
  intros Hcb Hfind Hid Hd deltaX deltaY committed st'.
  assert (Hst' : st' = set_interaction
            (saveAndBroadcastBoard
               (set_currentBoard
                  (set_interaction st (draggedItemId st) (Some id) start
                     (Some (resize_snapshot item)))
                  (Some committed))
               committed)
            None None start None).
  { subst st'. rewrite foldl_handlePointerMove_last.
    rewrite (handleResizeStart_found st cb id item start Hcb Hfind).
    rewrite (handlePointerMove_resizing _ cb (resize_snapshot item) id final)
      by done.
    unfold handlePointerUp.
    cbn [draggedItemId resizingItemId currentBoard set_currentBoard
         set_interaction JS.truthy_str_opt].
    rewrite Hd, truthy_str_nonempty by done. done. }
  rewrite Hst'. split_and!; try done.
  - cbn. apply (find_upsertBoard_eq committed).
  - intros it (it0 & -> & Hin)%list_elem_of_fmap Hit. cbn beta in Hit |- *.
    destruct (decide (item_id it0 = id)); [|done]. apply resized_lower.
Qed.

(** The sizes of the items the resize branch has written, in terms of the
    snapshot's. *)
Lemma resized_items_sizes (cb : Board) (id : string) (item : CanvasItem)
    (deltaX deltaY : float) :
  ∃ width0,
    item_width (resize_snapshot item) = Some width0 ∧
    ∀ it,
      it ∈ (λ it, if decide (item_id it = id)
                  then resized (resize_snapshot item) deltaX deltaY it else it)
             <$> board_items cb →
      item_id it = id →
      (∃ w, item_width it = Some w ∧ is_max_50 (width0 + deltaX)%float w) ∧
      match item_height (resize_snapshot item) with
      | Some height0 =>
          ∃ h, item_height it = Some h ∧ is_max_50 (height0 + deltaY)%float h
      | None => item_height it = None
      end.
Proof.
  destruct (resize_snapshot_width item) as (width0 & Hw0 & Hw0t).
  pose proof (resize_snapshot_height item) as Hh0t.
  exists width0. split; [done|].
  intros it (it0 & -> & Hin)%list_elem_of_fmap Hit. cbn beta in Hit |- *.
  destruct (decide (item_id it0 = id)) as [_|Hne]; [|done].
  split.
  - eexists. split; [|apply Math_max_50_is_max].
    exact (resized_width (resize_snapshot item) deltaX deltaY it0 width0 Hw0 Hw0t).
  - rewrite (resized_height (resize_snapshot item) deltaX deltaY it0 Hh0t).
    destruct (item_height (resize_snapshot item)) as [height0|]; [|done].
    eexists. split; [done|]. apply Math_max_50_is_max.
Qed.

(** Ann begins a resize of her note at (0, 0) on its handle, and it is
    rendered; a move at (10, 10) is rendered; a move at (25, -400) is not
    rendered before the release. The release stores the board of the last
    render, with the note 260 wide, where the last move gives 275. *)
Lemma resize_release_before_render_example :
  let st' := View.latest (View.run (View.fresh Scene.ann_on_B1)
                            Scene.resize_release_before_render) in
  (board_items <$> currentBoard st')
  = Some [item_with_size Sample.note (Some 260%float) None;
          Sample.emoji; Sample.photo] ∧
  (board_items <$> JS.find (λ b, board_id b = "B1") (boards st'))
  = Some [item_with_size Sample.note (Some 260%float) None;
          Sample.emoji; Sample.photo] ∧
  resizingItemId st' = None ∧
  JS.Math_max 50%float (250 + (25 - 0))%float = 275%float.
Proof. split_and!; reflexivity. Qed.

(** X8. A resize of the item found under [id] is begun at [start], with no
    drag in progress, and rendered; move events and renders follow in any
    number and order; the last move event, at [final], is rendered, and
    then the pointer is released. The release commits the board in which
    every item with that id has the size the snapshot and [final - start]
    give: the sum when the sum is above 50, and 50 when it is not (NaN for
    a sum that is NaN), so never below 50. That board becomes the open
    board, the entry of the board list and the payload of the broadcast,
    and the interaction is over. *)
Theorem resize_commits_after_render
    (st : AppState) (cb : Board) (id : string) (item : CanvasItem)
    (start : Point) (steps : list View.Event) (final : Point) :
  currentBoard st = Some cb →
  JS.find (λ i, item_id i = id) (board_items cb) = Some item →
  id ≠ "" →
  JS.truthy_str_opt (draggedItemId st) = false →
  Forall View.is_move_or_render steps →
  let deltaX := (clientX final - clientX start)%float in
  let deltaY := (clientY final - clientY start)%float in
  let committed :=
    board_with_items cb
      ((λ it, if decide (item_id it = id)
              then resized (resize_snapshot item) deltaX deltaY it else it)
         <$> board_items cb) in
  let begun := View.render (View.handleResizeStart (View.fresh st) start id) in
  let released :=
    View.handlePointerUp
      (View.render (View.handlePointerMove (View.run begun steps) final)) in
  let st' := View.latest released in
  currentBoard st' = Some committed ∧
  boards st' = upsertBoard committed (boards st) ∧
  JS.find (λ b, board_id b = board_id cb) (boards st') = Some committed ∧
  channelRef st'
  = (λ log, log ++ [mkMessage UPDATE_BOARD committed]) <$> channelRef st ∧
  draggedItemId st' = None ∧ resizingItemId st' = None ∧
  itemInitialState st' = None ∧
  (∀ it, it ∈ board_items committed → item_id it = id →
     (∀ w, item_width it = Some w → PrimFloat.ltb w 50%float = false) ∧
     (∀ h, item_height it = Some h → PrimFloat.ltb h 50%float = false)) ∧
  (∃ width0,
     item_width (resize_snapshot item) = Some width0 ∧
     ∀ it, it ∈ board_items committed → item_id it = id →
       (∃ w, item_width it = Some w ∧ is_max_50 (width0 + deltaX)%float w) ∧
       match item_height (resize_snapshot item) with
       | Some height0 =>
           ∃ h, item_height it = Some h ∧ is_max_50 (height0 + deltaY)%float h
       | None => item_height it = None
       end).
Proof.
  intros Hcb Hfind Hid Hd Hsteps deltaX deltaY committed begun released st'.
  assert (Hst' : st'
            = handlePointerUp
                (foldl handlePointerMove (handleResizeStart st start id)
                   ([] ++ [final]))).
  { subst st' released begun. rewrite view_handleResizeStart_fresh.
    by rewrite view_release_after_render. }
  rewrite Hst'.
  pose proof (resize_release_chain st cb id item start [] final Hcb Hfind Hid Hd)
    as (H1 & H2 & H3 & H4 & H5 & H6 & H7 & H8).
  split_and!; try done.
  apply resized_items_sizes.
Qed.

Lemma resize_commits_after_render_witness :
  currentBoard Scene.ann_on_B1 = Some Sample.B1 ∧
  board_items <$>
    currentBoard
      (View.latest
         (View.handlePointerUp
            (View.render
               (View.handlePointerMove
                  (View.run
                     (View.render
                        (View.handleResizeStart (View.fresh Scene.ann_on_B1)
                           (mkPoint 0%float 0%float) "i-photo"))
                     [View.Pointer (Move (mkPoint 5%float 5%float)); View.Render;
                      View.Pointer (Move (mkPoint 300%float 1%float))])
                  (mkPoint 25%float (-400)%float)))))
  = Some [Sample.note; Sample.emoji;
          item_with_size Sample.photo (Some 225%float) (Some 50%float)].
Proof.
  split; [reflexivity|].
  assert (Hid : "i-photo" ≠ "") by discriminate.
  assert (Hsteps : Forall View.is_move_or_render
            [View.Pointer (Move (mkPoint 5%float 5%float)); View.Render;
             View.Pointer (Move (mkPoint 300%float 1%float))])
    by (repeat constructor).
  rewrite (proj1 (resize_commits_after_render Scene.ann_on_B1 Sample.B1 "i-photo"
                    Sample.photo (mkPoint 0%float 0%float) _
                    (mkPoint 25%float (-400)%float)
                    eq_refl eq_refl Hid eq_refl Hsteps)).
  reflexivity.
Defined.

(** X9. A snapshot of the open board that arrives during a drag replaces
    the open board, and the next move event puts every item with the
    dragged id at the drag's snapshot plus the pointer delta: where the
    received board had the item is lost, and every other item is as
    received. *)
Theorem remote_update_during_drag
    (st : AppState) (cb received : Board) (id : string) (initial : CanvasItem)
    (p : Point) :
  currentBoard st = Some cb →
  board_id received = board_id cb →
  draggedItemId st = Some id → id ≠ "" →
  itemInitialState st = Some initial →
  let deltaX := (clientX p - clientX (interactionStart st))%float in
  let deltaY := (clientY p - clientY (interactionStart st))%float in
  currentBoard (onmessage st (mkMessage UPDATE_BOARD received)) = Some received ∧
  currentBoard
    (handlePointerMove (onmessage st (mkMessage UPDATE_BOARD received)) p)
  = Some (board_with_items received
            ((λ it, if decide (item_id it = id)
                    then item_with_xy it (item_x initial + deltaX)%float
                                         (item_y initial + deltaY)%float
                    else it) <$> board_items received)).
Proof.
  intros Hcb Hrid Hd Hid Hinit deltaX deltaY.
  assert (Hrecv : onmessage st (mkMessage UPDATE_BOARD received)
            = set_currentBoard
                (set_boards st (receiveBoard received (boards st)))
                (Some received)).
  { unfold onmessage. rewrite decide_True by done.
    cbn [msg_payload currentBoard set_boards]. rewrite Hcb.
    by rewrite decide_True. }
  rewrite Hrecv. split; [done|].
  unfold handlePointerMove.
  cbn [currentBoard itemInitialState draggedItemId interactionStart
       set_currentBoard set_boards].
  rewrite Hinit, Hd. cbn [JS.truthy_str_opt].
  rewrite truthy_str_nonempty by done.
  by rewrite mapItem_by_id.
Qed.

Lemma remote_update_during_drag_witness :
  currentBoard Sample.dragging_note = Some Sample.B1 ∧
  board_items <$>
    currentBoard
      (handlePointerMove
         (onmessage Sample.dragging_note (mkMessage UPDATE_BOARD Sample.B1_edited))
         (mkPoint 11%float 21%float))
  = Some [Sample.photo; item_with_xy Sample.note 130%float 100%float].
Proof.
  split; [reflexivity|].
  assert (Hid : "i-note" ≠ "") by discriminate.
  rewrite (proj2 (remote_update_during_drag Sample.dragging_note Sample.B1
                    Sample.B1_edited "i-note" Sample.note
                    (mkPoint 11%float 21%float)
                    eq_refl eq_refl eq_refl Hid eq_refl)).
  reflexivity.
Defined.

(** ** Two tabs *)

Section Tabs.

Implicit Types (st : AppState) (b c : Board) (l : list Board) (i : string).

Lemma upsertBoard_idem b l : upsertBoard b (upsertBoard b l) = upsertBoard b l.
Proof.
  induction l as [|c l IH].
  - cbn. rewrite upsertBoard_cons. by rewrite decide_True.
  - rewrite upsertBoard_cons.
    destruct (decide (board_id c = board_id b)) as [e|n].
    + rewrite upsertBoard_cons. by rewrite decide_True.
    + rewrite upsertBoard_cons, decide_False by done. by rewrite IH.
Qed.

Lemma upsertBoard_ids_snoc b l :
  board_id <$> upsertBoard b l
  = (board_id <$> l)
      ++ (if decide (board_id b ∈ board_id <$> l) then [] else [board_id b]).
Proof.
  induction l as [|c l IH].
  - cbn. rewrite decide_False; [done|]. apply not_elem_of_nil.
  - rewrite upsertBoard_cons.
    destruct (decide (board_id c = board_id b)) as [e|n].
    + rewrite !fmap_cons, decide_True by (rewrite e; apply elem_of_cons; auto).
      by rewrite app_nil_r, e.
    + rewrite !fmap_cons, IH. cbn. f_equal. f_equal.
      destruct (decide (board_id b ∈ board_id <$> l)) as [Hin|Hnin].
      * rewrite decide_True; [done|]. apply elem_of_cons. auto.
      * rewrite decide_False; [done|]. rewrite not_elem_of_cons. split; congruence.
Qed.

Lemma upsertBoard_ids_prefix b l :
  (board_id <$> l) `prefix_of` (board_id <$> upsertBoard b l).
Proof. rewrite upsertBoard_ids_snoc. by apply prefix_app_r. Qed.

Lemma boards_onmessage_prefix st (data : Message) :
  (board_id <$> boards st) `prefix_of` (board_id <$> boards (onmessage st data)).
Proof.
  unfold onmessage. destruct (decide (msg_type data = UPDATE_BOARD)); [|done].
  apply upsertBoard_ids_prefix.
Qed.

Lemma currentBoard_onmessage_id st (data : Message) :
  board_id <$> currentBoard (onmessage st data) = board_id <$> currentBoard st.
Proof.
  unfold onmessage. destruct (decide (msg_type data = UPDATE_BOARD)); [|done].
  cbn. destruct (currentBoard st) as [prev|]; [|done].
  destruct (decide (board_id prev = board_id (msg_payload data))); cbn; congruence.
Qed.

Lemma currentBoard_foldl_onmessage_id st (received : list Message) :
  board_id <$> currentBoard (foldl onmessage st received)
  = board_id <$> currentBoard st.
Proof.
  induction received as [|v vs IH] using rev_ind; [done|].
  by rewrite foldl_snoc, currentBoard_onmessage_id.
Qed.

Lemma channelRef_foldl_saveAndBroadcastBoard st (saved : list Board) :
  channelRef (foldl saveAndBroadcastBoard st saved)
  = (λ log, log ++ (mkMessage UPDATE_BOARD <$> saved)) <$> channelRef st.
Proof.
  induction saved as [|u us IH] using rev_ind.
  - cbn. destruct (channelRef st); cbn; by rewrite ?app_nil_r.
  - rewrite foldl_snoc. cbn. rewrite IH.
    destruct (channelRef st); cbn; [|done].
    by rewrite fmap_app, app_assoc.
Qed.

Lemma currentBoard_foldl_onmessage st (received : list Board) cb b :
  currentBoard st = Some cb →
  last (entries (board_id cb) received) = Some b →
  currentBoard (foldl onmessage st (mkMessage UPDATE_BOARD <$> received)) = Some b.
Proof.
  intros Hcb. induction received as [|u us IH] using rev_ind; [done|].
  rewrite fmap_app.
  change (mkMessage UPDATE_BOARD <$> [u]) with [mkMessage UPDATE_BOARD u].
  rewrite foldl_snoc, entries_snoc.
  set (st' := foldl onmessage st (mkMessage UPDATE_BOARD <$> us)) in *.
  assert (Hid : board_id <$> currentBoard st' = Some (board_id cb)).
  { subst st'. by rewrite currentBoard_foldl_onmessage_id, Hcb. }
  destruct (currentBoard st') as [cb'|] eqn:Hcb'; [|done].
  injection Hid as Hid.
  destruct (decide (board_id u = board_id cb)) as [Heq|Hne].
  - rewrite last_snoc. intros [= <-]. unfold onmessage.
    rewrite decide_True by done. cbn. rewrite Hcb'.
    rewrite decide_True by congruence. done.
  - rewrite app_nil_r. intros Hlast. unfold onmessage.
    rewrite decide_True by done. cbn. rewrite Hcb'.
    rewrite decide_False by congruence. by apply IH.
Qed.

End Tabs.

(** X10. What one tab saves, another tab that receives its messages in
    order comes to hold: the sender posts one [UPDATE_BOARD] message per
    save, in order, and after the receiver has handled them both tabs find,
    under every saved id, the board saved last for it; the receiver's open
    board, when it has a saved id, is that board too. A tab without a
    channel posts nothing and saves all the same. *)
Theorem tabs_converge_on_saved_boards (A B : AppState) (saved : list Board) :
  let A' := foldl saveAndBroadcastBoard A saved in
  let B' := foldl onmessage B (mkMessage UPDATE_BOARD <$> saved) in
  channelRef A'
  = (λ log, log ++ (mkMessage UPDATE_BOARD <$> saved)) <$> channelRef A ∧
  (∀ i b, last (entries i saved) = Some b →
     JS.find (λ c, board_id c = i) (boards A') = Some b ∧
     JS.find (λ c, board_id c = i) (boards B') = Some b) ∧
  (∀ cb b, currentBoard B = Some cb →
     last (entries (board_id cb) saved) = Some b →
     currentBoard B' = Some b).
Proof.
  intros A' B'. split_and!.
  - apply channelRef_foldl_saveAndBroadcastBoard.
  - intros i b Hlast. split.
    + subst A'. rewrite boards_foldl_saveAndBroadcastBoard.
      by apply foldl_upsertBoard_find.
    + subst B'. rewrite boards_foldl_onmessage.
      by apply foldl_upsertBoard_find.
  - intros cb b Hcb Hlast. by apply (currentBoard_foldl_onmessage B saved cb b).
Qed.

(** X11. Handling the same message a second time changes nothing. *)
Theorem onmessage_twice (st : AppState) (data : Message) :
  onmessage (onmessage st data) data = onmessage st data.
Proof.
  unfold onmessage. destruct (decide (msg_type data = UPDATE_BOARD)) as [Ht|Ht].
  - unfold set_currentBoard, set_boards. cbn. f_equal.
    + destruct (currentBoard st) as [prev|]; [|done].
      destruct (decide (board_id prev = board_id (msg_payload data))) as [e|n].
      * by rewrite decide_True.
      * by rewrite decide_False.
    + rewrite !receiveBoard_upsertBoard. apply upsertBoard_idem.
  - done.
Qed.

(** X12. Neither a save nor a received message removes a board from the
    list or moves one: the ids the list had stay where they were, and
    ids not seen before are added after them. *)
Theorem boards_only_grow_at_the_end
    (st : AppState) (saved : list Board) (received : list Message) :
  (board_id <$> boards st)
    `prefix_of` (board_id <$> boards (foldl saveAndBroadcastBoard st saved)) ∧
  (board_id <$> boards st)
    `prefix_of` (board_id <$> boards (foldl onmessage st received)) ∧
  (∀ b, board_id <$> boards (saveAndBroadcastBoard st b)
        = (board_id <$> boards st)
            ++ (if decide (board_id b ∈ board_id <$> boards st)
                then [] else [board_id b])).
Proof.
  split_and!.
  - induction saved as [|u us IH] using rev_ind; [done|].
    rewrite foldl_snoc. etrans; [exact IH|].
    rewrite boards_saveAndBroadcastBoard. apply upsertBoard_ids_prefix.
  - induction received as [|u us IH] using rev_ind; [done|].
    rewrite foldl_snoc. etrans; [exact IH|]. apply boards_onmessage_prefix.
  - intros b. rewrite boards_saveAndBroadcastBoard. apply upsertBoard_ids_snoc.
Qed.

(** X13. Snapshots of two different boards may arrive in either order:
    every lookup by id then finds the same board. *)
Theorem onmessage_distinct_ids_commute (st : AppState) (a b : Board) (i : string) :
  board_id a ≠ board_id b →
  JS.find (λ c, board_id c = i)
    (boards (onmessage (onmessage st (mkMessage UPDATE_BOARD a))
               (mkMessage UPDATE_BOARD b)))
  = JS.find (λ c, board_id c = i)
      (boards (onmessage (onmessage st (mkMessage UPDATE_BOARD b))
                 (mkMessage UPDATE_BOARD a))).
Proof.
  intros Hab. rewrite !boards_onmessage.
  destruct (decide (i = board_id a)) as [->|Hia];
    [|destruct (decide (i = board_id b)) as [->|Hib]].
  - rewrite find_upsertBoard_ne by done. by rewrite !find_upsertBoard_eq.
  - rewrite find_upsertBoard_eq, find_upsertBoard_ne by done.
    by rewrite find_upsertBoard_eq.
  - by rewrite !find_upsertBoard_ne.
Qed.

Lemma onmessage_distinct_ids_commute_witness :
  board_id Sample.B1_edited ≠ board_id Sample.B2_edited ∧
  JS.find (λ c, board_id c = "B2")
    (boards (onmessage (onmessage Scene.ann_on_B1
                          (mkMessage UPDATE_BOARD Sample.B1_edited))
               (mkMessage UPDATE_BOARD Sample.B2_edited)))
  = JS.find (λ c, board_id c = "B2")
      (boards (onmessage (onmessage Scene.ann_on_B1
                            (mkMessage UPDATE_BOARD Sample.B2_edited))
                 (mkMessage UPDATE_BOARD Sample.B1_edited))).
Proof.
  assert (Hne : board_id Sample.B1_edited ≠ board_id Sample.B2_edited)
    by discriminate.
  split; [exact Hne|].
  exact (onmessage_distinct_ids_commute Scene.ann_on_B1 Sample.B1_edited
           Sample.B2_edited "B2" Hne).
Defined.

(** ** Layers again *)

Section LayerEnds.

Implicit Types (st : AppState) (cb : Board) (it : CanvasItem) (id : string).

Lemma changeItemLayer_front_last st cb it :
  currentBoard st = Some cb →
  NoDup (item_id <$> board_items cb) →
  last (board_items cb) = Some it →
  currentBoard (changeItemLayer st (item_id it) front) = Some cb.
Proof.
  intros Hcb Hnd (l' & Hl')%last_Some.
  rewrite Hl', fmap_app in Hnd. apply NoDup_app in Hnd as (_ & Hdisj & _).
  assert (Hfresh : item_id it ∉ item_id <$> l').
  { intros Hin. apply (Hdisj _ Hin). cbn. apply list_elem_of_singleton. done. }
  rewrite (changeItemLayer_found st cb (item_id it) (length l') it front Hcb)
    by (rewrite Hl'; by apply find_app_fresh).
  rewrite Hl', (delete_middle l' [] it), app_nil_r, <- Hl'.
  by rewrite board_with_items_same.
Qed.

Lemma changeItemLayer_back_head st cb it :
  currentBoard st = Some cb →
  head (board_items cb) = Some it →
  currentBoard (changeItemLayer st (item_id it) back) = Some cb.
Proof.
  intros Hcb Hhead. destruct (board_items cb) as [|it' l'] eqn:Hl'; [done|].
  injection Hhead as ->.
  rewrite (changeItemLayer_found st cb (item_id it) 0 it back Hcb)
    by (rewrite Hl'; unfold list_find; by rewrite decide_True).
  rewrite Hl'. cbn. rewrite <- Hl'. by rewrite board_with_items_same.
Qed.

End LayerEnds.

(** X14. Bringing to the front the item that is already last, on a board
    whose item ids are pairwise distinct, and sending to the back the item
    that is already first, leave the open board as it is. So, with
    distinct ids, doing either change a second time changes nothing
    more. *)
Theorem changeItemLayer_at_the_end
    (st : AppState) (cb : Board) (id : string) (direction : Direction) :
  currentBoard st = Some cb →
  NoDup (item_id <$> board_items cb) →
  (∀ it, last (board_items cb) = Some it →
         currentBoard (changeItemLayer st (item_id it) front) = Some cb) ∧
  (∀ it, head (board_items cb) = Some it →
         currentBoard (changeItemLayer st (item_id it) back) = Some cb) ∧
  currentBoard (changeItemLayer (changeItemLayer st id direction) id direction)
  = currentBoard (changeItemLayer st id direction).
Proof.
  intros Hcb Hnd. split_and!.
  - intros it. by apply changeItemLayer_front_last.
  - intros it. by apply changeItemLayer_back_head.
  - destruct (list_find (λ i, item_id i = id) (board_items cb))
      as [[index item]|] eqn:Hfind.
    + pose proof Hfind as (Hlook & <- & _)%list_find_Some.
      pose proof (changeItemLayer_found st cb _ index item direction Hcb Hfind)
        as Hcb'.
      pose proof (delete_Permutation _ _ _ Hlook) as Hperm.
      destruct direction.
      * rewrite Hcb'. apply changeItemLayer_front_last; [done| |].
        -- cbn. rewrite <- Permutation_cons_append, <- Hperm. done.
        -- cbn. apply last_snoc.
      * rewrite Hcb'. apply changeItemLayer_back_head; [done|]. done.
    + by rewrite !(changeItemLayer_not_found st cb id direction Hcb Hfind).
Qed.

Lemma changeItemLayer_at_the_end_witness :
  currentBoard Scene.ann_on_B1 = Some Sample.B1 ∧
  NoDup (item_id <$> board_items Sample.B1) ∧
  currentBoard (changeItemLayer Scene.ann_on_B1 (item_id Sample.photo) front)
  = Some Sample.B1.
Proof.
  assert (Hnd : NoDup (item_id <$> board_items Sample.B1)).
  { apply (bool_decide_unpack _). vm_compute. exact I. }
  split_and!; [reflexivity | exact Hnd |].
  exact (proj1 (changeItemLayer_at_the_end Scene.ann_on_B1 Sample.B1 "i-note"
                  front eq_refl Hnd) Sample.photo eq_refl).
Defined.

(** ** The address and the boards *)

Section Address.

Implicit Types (sh : Shell) (allBoards : list Board) (id : string) (b : Board).

Lemma remove_first_hash_prefixed id : remove_first_hash (String "#" id) = id.
Proof. cbn. by rewrite decide_True. Qed.

Lemma find_elem_of {A} (P : A → Prop) `{∀ a, Decision (P a)} (l : list A) (a : A) :
  JS.find P l = Some a → a ∈ l ∧ P a.
Proof.
  intros (k & Hk & Ha & _)%find_lookup. split; [|done].
  by eapply list_elem_of_lookup_2.
Qed.

Lemma find_None_ids allBoards id :
  id ∉ board_id <$> allBoards →
  JS.find (λ b, board_id b = id) allBoards = None.
Proof.
  intros Hid. unfold JS.find.
  destruct (list_find _ allBoards) as [[k b]|] eqn:E; [|done].
  apply list_find_Some in E as (Hk & Hb & _). exfalso. apply Hid.
  apply list_elem_of_fmap. exists b. split; [done|].
  by eapply list_elem_of_lookup_2.
Qed.

End Address.

(** X15. A deep link [#id] with a non-empty id opens the first of the given
    boards that has the id and keeps the address; when no board has the
    id, no board is open afterwards and the address has lost its
    fragment. The board list and the user are not touched. *)
Theorem handleHashChange_resolves
    (sh : Shell) (allBoards : list Board) (id : string) :
  location_hash sh = String "#" id → id ≠ "" →
  let sh' := handleHashChange sh allBoards in
  (∀ b, JS.find (λ c, board_id c = id) allBoards = Some b →
        currentBoard (app sh') = Some b ∧ location_hash sh' = location_hash sh) ∧
  (id ∉ board_id <$> allBoards →
   currentBoard (app sh') = None ∧ location_hash sh' = "") ∧
  boards (app sh') = boards (app sh) ∧ user (app sh') = user (app sh).
Proof.
  intros Hhash Hid sh'. subst sh'. unfold handleHashChange.
  rewrite Hhash, remove_first_hash_prefixed, truthy_str_nonempty by done.
  split_and!.
  - intros b Hb. by rewrite Hb.
  - intros Hno. by rewrite find_None_ids.
  - by destruct (JS.find _ allBoards).
  - by destruct (JS.find _ allBoards).
Qed.

Lemma handleHashChange_resolves_witness :
  location_hash (Scene.shell "#B1") = String "#" "B1" ∧ "B1" ≠ "" ∧
  currentBoard (app (handleHashChange (Scene.shell "#B1") [Sample.B2; Sample.B1]))
  = Some Sample.B1 ∧
  location_hash (handleHashChange (Scene.shell "#B1") [Sample.B2]) = "".
Proof.
  assert (Hid : "B1" ≠ "") by discriminate.
  split_and!; [reflexivity | exact Hid | |].
  - exact (proj1 (proj1 (handleHashChange_resolves (Scene.shell "#B1")
                           [Sample.B2; Sample.B1] "B1" eq_refl Hid)
                    Sample.B1 eq_refl)).
  - refine (proj2 (proj1 (proj2 (handleHashChange_resolves (Scene.shell "#B1")
                                   [Sample.B2] "B1" eq_refl Hid)) _)).
    apply (bool_decide_unpack _). vm_compute. exact I.
Defined.

(** X16. After [handleHashChange] the open board and the address agree: an
    open board is one of the given boards, and its id, which is not empty,
    is the address's fragment; and with no board open the fragment is
    empty. Running it again on the same boards changes nothing. *)
Theorem handleHashChange_agrees (sh : Shell) (allBoards : list Board) :
  let sh' := handleHashChange sh allBoards in
  (∀ b, currentBoard (app sh') = Some b →
        b ∈ allBoards ∧ board_id b ≠ "" ∧
        remove_first_hash (location_hash sh') = board_id b) ∧
  (currentBoard (app sh') = None →
   remove_first_hash (location_hash sh') = "") ∧
  handleHashChange sh' allBoards = sh'.
Proof.
  intros sh'. subst sh'. unfold handleHashChange.
  destruct (JS.truthy_str (remove_first_hash (location_hash sh))) eqn:Ht.
  - destruct (JS.find _ allBoards) as [b|] eqn:Hb; cbn.
    + rewrite Ht, Hb. split_and!; [|done|done].
      intros b' [= <-]. apply find_elem_of in Hb as [Hin Hidb].
      split_and!; [done| |done].
      rewrite Hidb. intros Hempty. by rewrite Hempty in Ht.
    + done.
  - cbn. rewrite Ht. split_and!; [done| |done].
    intros _. by destruct (remove_first_hash (location_hash sh)).
Qed.

(** X17. [handleCreateBoard] does nothing for a logged-out user. For a
    logged-in one it opens and broadcasts a board with the given id and
    topic, no items and the user as host, so that this user may edit every
    item that comes onto it, whoever its author; the board has a
    background size exactly when it has a background image; it goes to
    the end of the board list when its id is new there; and the
    board-creation inputs are reset. *)
Theorem handleCreateBoard_opens_own_board
    (assign_hash : string → string) (sh : Shell) (id : string) (now : float)
    (topic : string) :
  (user (app sh) = None → handleCreateBoard assign_hash sh id now topic = sh) ∧
  (∀ usr, user (app sh) = Some usr →
     ∃ b,
       currentBoard (app (handleCreateBoard assign_hash sh id now topic)) = Some b ∧
       board_id b = id ∧ board_topic b = topic ∧ board_items b = [] ∧
       board_host b = user_name usr ∧
       (is_Some (board_backgroundSize b) ↔ is_Some (board_backgroundImage b)) ∧
       (∀ it, DraggableItem.isAuthorized
                (user (app (handleCreateBoard assign_hash sh id now topic)))
                it (board_host b) = true) ∧
       JS.find (λ c, board_id c = id)
         (boards (app (handleCreateBoard assign_hash sh id now topic))) = Some b ∧
       (id ∉ board_id <$> boards (app sh) →
        boards (app (handleCreateBoard assign_hash sh id now topic))
        = boards (app sh) ++ [b]) ∧
       channelRef (app (handleCreateBoard assign_hash sh id now topic))
       = (λ log, log ++ [mkMessage UPDATE_BOARD b]) <$> channelRef (app sh) ∧
       newBoardBg (handleCreateBoard assign_hash sh id now topic) = None ∧
       newBoardBgSize (handleCreateBoard assign_hash sh id now topic) = cover ∧
       isJoinMode (handleCreateBoard assign_hash sh id now topic) = false).
Proof.
  unfold handleCreateBoard. split.
  - by intros ->.
  - intros usr Hu. rewrite Hu. eexists. split_and!; try done.
    + cbn. destruct (JS.truthy_str_opt (newBoardBg sh)) eqn:Hbg.
      * split; intros _; [|by eexists].
        destruct (newBoardBg sh); [by eexists|done].
      * split; intros [? ?]; done.
    + intros it. cbn [app user saveAndBroadcastBoard postMessage set_boards
                        set_currentBoard].
      rewrite Hu. apply isAuthorized_host.
    + cbn. apply (find_upsertBoard_eq (newBoard id now topic _ _ _)).
    + intros Hid. cbn. by apply upsertBoard_unseen.
Qed.

(** ** Generated ids *)

Section GeneratedIds.

Local Open Scope Z_scope.

Lemma toString16_nibble (r : Z) :
  0 ≤ r < 16 → ∃ c, toString16 r = String c "" ∧ is_hex_digit c.
Proof.
  intros Hr.
  assert (r = 0 ∨ r = 1 ∨ r = 2 ∨ r = 3 ∨ r = 4 ∨ r = 5 ∨ r = 6 ∨ r = 7 ∨
          r = 8 ∨ r = 9 ∨ r = 10 ∨ r = 11 ∨ r = 12 ∨ r = 13 ∨ r = 14 ∨ r = 15)
    as Hcases by lia.
  repeat destruct Hcases as [->|Hcases]; [..|subst r];
    (eexists; split; [reflexivity|];
     apply (bool_decide_unpack _); vm_compute; exact I).
Qed.

(** The nibble written at a [y] is one of 8, 9, a, b, whatever was
    drawn. *)
Lemma toString16_variant (r : Z) :
  ∃ c, toString16 (Z.lor (Z.land r 3) 8) = String c "" ∧
       c ∈ ["8"; "9"; "a"; "b"]%char.
Proof.
  change 3 with (Z.ones 2). rewrite Z.land_ones by lia.
  pose proof (Z.mod_pos_bound r (2 ^ 2) ltac:(lia)) as Hm.
  assert (r mod 2 ^ 2 = 0 ∨ r mod 2 ^ 2 = 1 ∨ r mod 2 ^ 2 = 2 ∨ r mod 2 ^ 2 = 3)
    as Hcases by lia.
  repeat destruct Hcases as [->|Hcases]; [..|rewrite Hcases];
    (eexists; split; [reflexivity|];
     apply (bool_decide_unpack _); vm_compute; exact I).
Qed.

Lemma append_single (c : ascii) (s : string) : String c "" +:+ s = String c s.
Proof. done. Qed.

Lemma replace_xy_chars (rand16 : nat → Z) (template : string) :
  (∀ k, 0 ≤ rand16 k < 16) →
  ∀ k,
    String.length (replace_xy rand16 k template) = String.length template ∧
    ∀ n c, String.get n template = Some c →
      ∃ c', String.get n (replace_xy rand16 k template) = Some c' ∧
            (c = "x"%char → is_hex_digit c') ∧
            (c = "y"%char → c' ∈ ["8"; "9"; "a"; "b"]%char) ∧
            (c ≠ "x"%char → c ≠ "y"%char → c' = c).
Proof.
  intros Hrand. induction template as [|a rest IH]; intros k; [done|].
  cbn [replace_xy].
  destruct (decide (a = "x"%char ∨ a = "y"%char)) as [Hxy|Hxy].
  - destruct (decide (a = "x"%char)) as [Hx|Hx].
    + destruct (toString16_nibble (rand16 k) (Hrand k)) as (c' & -> & Hc').
      rewrite append_single. destruct (IH (S k)) as [Hlen Hget].
      split; [cbn; by rewrite Hlen|].
      intros [|n] c; cbn [String.get].
      * intros [= <-]. exists c'. split_and!; [done|done| |]; intros; congruence.
      * apply Hget.
    + destruct (toString16_variant (rand16 k)) as (c' & -> & Hc').
      rewrite append_single. destruct (IH (S k)) as [Hlen Hget].
      split; [cbn; by rewrite Hlen|].
      intros [|n] c; cbn [String.get].
      * intros [= <-]. exists c'. split_and!; [done| |done|]; intros; tauto.
      * apply Hget.
  - destruct (IH k) as [Hlen Hget].
    split; [cbn; by rewrite Hlen|].
    intros [|n] c; cbn [String.get].
    + intros [= <-]. exists a. split_and!; [done| | |done]; intros; tauto.
    + apply Hget.
Qed.

End GeneratedIds.

(** X18. Where the platform has no [crypto.randomUUID], and each value of
    [Math.random() * 16 | 0] being one of 0 to 15, [generateId] returns 36
    characters in the layout of a version 4 UUID: hyphens at positions 8,
    13, 18 and 23, the digit 4 at position 14, one of 8, 9, a, b at
    position 19, and a lowercase hexadecimal digit everywhere else. *)
Theorem generateId_fallback_layout (rand16 : nat → Z) :
  (∀ k, (0 ≤ rand16 k < 16)%Z) →
  String.length (generateId None rand16) = 36 ∧
  (∀ n, n ∈ [8; 13; 18; 23] → String.get n (generateId None rand16) = Some "-"%char) ∧
  String.get 14 (generateId None rand16) = Some "4"%char ∧
  (∃ c, String.get 19 (generateId None rand16) = Some c ∧
        c ∈ ["8"; "9"; "a"; "b"]%char) ∧
  (∀ n, n < 36 → n ∉ [8; 13; 18; 23] →
        ∃ c, String.get n (generateId None rand16) = Some c ∧ is_hex_digit c).
Proof.
  intros Hrand. cbn [generateId].
  destruct (replace_xy_chars rand16 UUID_TEMPLATE Hrand 0) as [Hlen Hget].
  assert (Hfixed : ∀ n c, String.get n UUID_TEMPLATE = Some c →
            c ≠ "x"%char → c ≠ "y"%char →
            String.get n (replace_xy rand16 0 UUID_TEMPLATE) = Some c).
  { intros n c Hn Hx Hy. destruct (Hget n c Hn) as (c' & Hc' & _ & _ & Hsame).
    by rewrite Hc', (Hsame Hx Hy). }
  split_and!.
  - by rewrite Hlen.
  - intros n Hn. apply Hfixed; [|done..].
    repeat (apply elem_of_cons in Hn as [->|Hn]; [reflexivity|]).
    by apply elem_of_nil in Hn.
  - by apply Hfixed.
  - destruct (Hget 19 "y"%char eq_refl) as (c' & Hc' & _ & Hy & _). eauto.
  - intros n Hn Hnot.
    assert (Hcase : String.get n UUID_TEMPLATE = Some "x"%char
                    ∨ String.get n UUID_TEMPLATE = Some "4"%char
                    ∨ String.get n UUID_TEMPLATE = Some "y"%char).
    { do 36 (destruct n as [|n];
             [first [ by left | by (right; left) | by (right; right)
                    | exfalso; apply Hnot; apply (bool_decide_unpack _);
                      vm_compute; exact I ]|]).
      lia. }
    destruct Hcase as [Hc|[Hc|Hc]].
    + destruct (Hget n _ Hc) as (c' & Hc' & Hx & _). eauto.
    + exists "4"%char. split; [by apply Hfixed|].
      apply (bool_decide_unpack _). vm_compute. exact I.
    + destruct (Hget n _ Hc) as (c' & Hc' & _ & Hy & _).
      exists c'. split; [done|]. specialize (Hy eq_refl).
      unfold is_hex_digit.
      repeat (apply elem_of_cons in Hy as [->|Hy];
              [apply (bool_decide_unpack _); vm_compute; exact I|]).
      by apply elem_of_nil in Hy.
Qed.

Lemma generateId_fallback_layout_witness :
  (∀ k, (0 ≤ Scene.counting k < 16)%Z) ∧
  String.length (generateId None Scene.counting) = 36 ∧
  String.get 14 (generateId None Scene.counting) = Some "4"%char.
Proof.
  assert (Hrand : ∀ k, (0 ≤ Scene.counting k < 16)%Z).
  { intros k. unfold Scene.counting. apply Z.mod_pos_bound. lia. }
  split; [exact Hrand|].
  destruct (generateId_fallback_layout Scene.counting Hrand)
    as (Hlen & _ & H14 & _).
  by split.
Defined.

(** ** What every action keeps *)

Section Kept.

Implicit Types (st : AppState) (cb : Board) (it : CanvasItem) (id : string).

Lemma item_id_ungeometry (items : list CanvasItem) :
  item_id <$> (ungeometry <$> items) = item_id <$> items.
Proof. rewrite <- list_fmap_compose. by apply list_fmap_ext. Qed.

Lemma run_item_ids st cb (evs : list PointerEvent) :
  currentBoard st = Some cb →
  ∃ cb', currentBoard (run st evs) = Some cb' ∧
         item_id <$> board_items cb' = item_id <$> board_items cb.
Proof.
  intros Hcb.
  destruct (ungeometry_run st evs) as [Hgeo _].
  rewrite Hcb in Hgeo. destruct (currentBoard (run st evs)) as [cb'|]; [|done].
  exists cb'. split; [done|].
  apply (f_equal (fmap board_items)) in Hgeo. cbn in Hgeo.
  injection Hgeo as Hgeo.
  by rewrite <- (item_id_ungeometry (board_items cb')), Hgeo, item_id_ungeometry.
Qed.

End Kept.

(** X19. Item ids that are pairwise distinct stay so: after any pointer
    events the open board has the same ids in the same order, and
    [deleteItem], [changeItemLayer] and an [addItem] whose generated id is
    not on the board give an open board with pairwise distinct item ids
    again. *)
Theorem item_ids_stay_distinct (st : AppState) (cb : Board) :
  currentBoard st = Some cb →
  NoDup (item_id <$> board_items cb) →
  (∀ evs, ∃ cb', currentBoard (run st evs) = Some cb' ∧
                 item_id <$> board_items cb' = item_id <$> board_items cb) ∧
  (∀ id, ∃ cb', currentBoard (deleteItem st id) = Some cb' ∧
                NoDup (item_id <$> board_items cb')) ∧
  (∀ id direction,
     ∃ cb', currentBoard (changeItemLayer st id direction) = Some cb' ∧
            NoDup (item_id <$> board_items cb')) ∧
  (∀ env type content color textColor usr,
     user st = Some usr →
     generated_id env ∉ item_id <$> board_items cb →
     ∃ cb', currentBoard (addItem st env type content color textColor) = Some cb' ∧
            NoDup (item_id <$> board_items cb')).
Proof.
  intros Hcb Hnd. split_and!.
  - intros evs. by apply run_item_ids.
  - intros id. rewrite (deleteItem_open st cb id Hcb). eexists. split; [done|].
    cbn. eapply sublist_NoDup; [exact Hnd|].
    apply (fmap_sublist item_id), sublist_filter.
  - intros id direction.
    destruct (list_find (λ i, item_id i = id) (board_items cb))
      as [[index item]|] eqn:Hfind.
    + rewrite (changeItemLayer_found st cb id index item direction Hcb Hfind).
      eexists. split; [done|].
      pose proof Hfind as (Hlook & _ & _)%list_find_Some.
      pose proof (delete_Permutation _ _ _ Hlook) as Hperm. cbn.
      destruct direction.
      * by rewrite <- Permutation_cons_append, <- Hperm.
      * by rewrite <- Hperm.
    + rewrite (changeItemLayer_not_found st cb id direction Hcb Hfind). eauto.
  - intros env type content color textColor usr Hu Hfresh.
    rewrite (addItem_open st cb usr env type content color textColor Hcb Hu).
    eexists. split; [done|]. cbn. rewrite fmap_app. cbn.
    rewrite newItem_id, <- Permutation_cons_append.
    by apply NoDup_cons.
Qed.

Lemma item_ids_stay_distinct_witness :
  currentBoard Scene.ann_on_B1 = Some Sample.B1 ∧
  NoDup (item_id <$> board_items Sample.B1) ∧
  ∃ cb', currentBoard (changeItemLayer Scene.ann_on_B1 "i-note" front) = Some cb' ∧
         NoDup (item_id <$> board_items cb').
Proof.
  assert (Hnd : NoDup (item_id <$> board_items Sample.B1)).
  { apply (bool_decide_unpack _). vm_compute. exact I. }
  split_and!; [reflexivity | exact Hnd |].
  exact (proj1 (proj2 (proj2 (item_ids_stay_distinct Scene.ann_on_B1 Sample.B1
                                eq_refl Hnd))) "i-note" front).
Defined.

Section Settled.

Implicit Types (st : AppState) (cb : Board) (b : Board).

Lemma settled_handlePointerMove st e :
  settled st → settled (handlePointerMove st e).
Proof.
  intros Hs. unfold handlePointerMove.
  destruct (currentBoard st) as [cb|] eqn:Hcb; [|done].
  destruct (itemInitialState st) as [initial|]; [|done].
  destruct (JS.truthy_str_opt (draggedItemId st)) eqn:Hd;
    [|destruct (JS.truthy_str_opt (resizingItemId st)) eqn:Hr; [|done]];
    intros Hm; exfalso; revert Hm; unfold moving_id; cbn;
    rewrite Hd, ?Hr.
  - by destruct (draggedItemId st).
  - by destruct (resizingItemId st).
Qed.

Lemma settled_handlePointerUp st : settled st → settled (handlePointerUp st).
Proof.
  intros Hs. unfold handlePointerUp. destruct (_ || _); [|done].
  destruct (currentBoard st) as [cb|] eqn:Hcb; [|done].
  intros _ cb' [= <-]. cbn. apply (find_upsertBoard_eq cb).
Qed.

Lemma settled_handlePointerDown st e id :
  id ≠ "" → settled st → settled (handlePointerDown st e id).
Proof.
  intros Hid Hs. unfold handlePointerDown. destruct (_ ≫= _); [|done].
  intros Hm. exfalso. revert Hm. unfold moving_id. cbn.
  by rewrite truthy_str_nonempty.
Qed.

Lemma settled_handleResizeStart st e id :
  id ≠ "" → settled st → settled (handleResizeStart st e id).
Proof.
  intros Hid Hs. unfold handleResizeStart. destruct (_ ≫= _); [|done].
  intros Hm. exfalso. revert Hm. unfold moving_id. cbn.
  rewrite truthy_str_nonempty by done.
  destruct (JS.truthy_str_opt (draggedItemId st)) eqn:Hd; [|done].
  by destruct (draggedItemId st).
Qed.

Lemma settled_dispatch st ev :
  (∀ cb it, currentBoard st = Some cb → it ∈ board_items cb → item_id it ≠ "") →
  settled st → settled (dispatch st ev).
Proof.
  intros Hids Hs. destruct ev as [k e|k e|e|]; cbn [dispatch].
  - destruct (rendered st k) as [[it hostName]|] eqn:Hk; [|done].
    unfold rendered in Hk. destruct (currentBoard st) as [cb|] eqn:Hcb; [|done].
    cbn in Hk. destruct (board_items cb !! k) as [it'|] eqn:Hk'; [|done].
    cbn in Hk. injection Hk as -> <-.
    unfold DraggableItem.handlePointerDown.
    destruct (DraggableItem.isAuthorized _ _ _); [|done].
    apply settled_handlePointerDown; [|done].
    eapply Hids; [done|]. by eapply list_elem_of_lookup_2.
  - destruct (rendered st k) as [[it hostName]|] eqn:Hk; [|done].
    unfold rendered in Hk. destruct (currentBoard st) as [cb|] eqn:Hcb; [|done].
    cbn in Hk. destruct (board_items cb !! k) as [it'|] eqn:Hk'; [|done].
    cbn in Hk. injection Hk as -> <-.
    unfold DraggableItem.handleResizePointerDown.
    destruct (DraggableItem.isAuthorized _ _ _); [|done].
    apply settled_handleResizeStart; [|done].
    eapply Hids; [done|]. by eapply list_elem_of_lookup_2.
  - by apply settled_handlePointerMove.
  - by apply settled_handlePointerUp.
Qed.

Lemma ids_nonempty_dispatch st ev :
  (∀ cb it, currentBoard st = Some cb → it ∈ board_items cb → item_id it ≠ "") →
  ∀ cb it, currentBoard (dispatch st ev) = Some cb → it ∈ board_items cb →
           item_id it ≠ "".
Proof.
  intros Hids cb' it Hcb' Hin.
  destruct (currentBoard st) as [cb|] eqn:Hcb.
  - destruct (run_item_ids st cb [ev] Hcb) as (cb'' & Hcb'' & Hsame).
    cbn in Hcb''. assert (cb'' = cb') as -> by congruence.
    assert (Hid : item_id it ∈ item_id <$> board_items cb)
      by (rewrite <- Hsame; by apply list_elem_of_fmap_2).
    apply list_elem_of_fmap in Hid as (it0 & -> & Hin0). by eapply Hids.
  - destruct (ungeometry_run st [ev]) as [Hgeo _].
    cbn in Hgeo. rewrite Hcb, Hcb' in Hgeo. done.
Qed.

End Settled.

(** X20. On a board whose items have non-empty ids, pointer events keep
    the board list in step with the view: if, whenever no interaction is
    in progress, the open board is the board the list holds under its id,
    then the same is true after any pointer events. What a drag or resize
    shows and the list does not yet hold is stored by the release. *)
Theorem pointer_events_keep_settled (st : AppState) (evs : list PointerEvent) :
  (∀ cb it, currentBoard st = Some cb → it ∈ board_items cb → item_id it ≠ "") →
  settled st → settled (run st evs).
Proof.
  unfold run. revert st. induction evs as [|ev evs IH]; [done|].
  intros st Hids Hs. cbn. apply IH.
  - by apply ids_nonempty_dispatch.
  - by apply settled_dispatch.
Qed.

Lemma pointer_events_keep_settled_witness :
  settled Scene.ann_on_B1 ∧
  settled (run Scene.ann_on_B1
             [DownOnItem 0 (mkPoint 1%float 1%float);
              Move (mkPoint 50%float 60%float); Up]).
Proof.
  assert (Hs : settled Scene.ann_on_B1) by (intros _ cb [= <-]; reflexivity).
  split; [exact Hs|].
  apply pointer_events_keep_settled; [|exact Hs].
  intros cb it [= <-] Hin.
  repeat (apply elem_of_cons in Hin as [->|Hin]; [discriminate|]).
  by apply elem_of_nil in Hin.
Defined.
